(** * Verification of the cart store of appsevenmenu

    Shallow embedding of [src/frontend/store/cartStore.ts] (the variant
    with the [getStoredCart]/[saveCart] helpers over [localStorage]), of
    the storage adapters of the persisted variants of the store, and of
    the screens that call the store.  The zustand store is modelled by
    explicit state passing: a [World] holds the in-memory [items] and the
    browser storage; every mutation computes [newItems], does
    [set({ items: newItems })] and then the write-through
    [saveCart(newItems)].

    JavaScript numbers are IEEE-754 binary64 values ([spec_float] of the
    Standard Library, with [SFadd]/[SFmul] for [+] and [*]); quantities,
    which the screens only change by integer steps, are kept as integers
    [Z] and turned into numbers where the code mixes them with prices.
    JavaScript strings and the texts held by the storages are lists of
    UTF-16 code units.  [JSON.stringify] and [JSON.parse] are modelled on
    that representation, with the number printing of [Number::toString]
    and the correctly rounded decimal reading of [JSON.parse]. *)

From Stdlib Require Import String Ascii ZArith List Lia Bool SpecFloat.
From stdpp Require Import base list strings gmap.
Import ListNotations.
Open Scope Z_scope.

Definition double := spec_float.

Definition scale (r a b j : Z) : Z * Z :=
  if 0 <=? j then (a * r ^ j, b) else (a, b * r ^ (- j)).

Definition pow_le (r a b t : Z) : bool :=
  let '(n, d) := scale r a b (- t) in d <=? n.

Fixpoint ilog10_aux (fuel : nat) (a : Z) : Z :=
  match fuel with
  | O => 0
  | S f => if a <? 10 then 0 else 1 + ilog10_aux f (a / 10)
  end.

Definition ilog10 (a : Z) : Z := ilog10_aux (S (Z.to_nat (Z.log2 a))) a.

Definition flog (r la lb a b : Z) : Z :=
  let t := la - lb in if pow_le r a b t then t else t - 1.

Definition flog2 (a b : Z) : Z := flog 2 (Z.log2 a) (Z.log2 b) a b.

Definition flog10 (a b : Z) : Z := flog 10 (ilog10 a) (ilog10 b) a b.

(** Round to nearest, ties to even, the positive rational [a/b] to a
    binary64 value of sign [neg] (IEEE 754 roundTiesToEven). *)
Definition round_pos (neg : bool) (a b : Z) : double :=
  let e := Z.max (flog2 a b - 52) (-1074) in
  let '(num, den) := scale 2 a b (- e) in
  let q := num / den in
  let r := num mod den in
  let m := if (den <? 2 * r) || ((2 * r =? den) && Z.odd q) then q + 1 else q in
  let '(m', e') := if m =? 2 ^ 53 then (2 ^ 52, e + 1) else (m, e) in
  if m' =? 0 then S754_zero neg
  else if 971 <? e' then S754_infinity neg
  else S754_finite neg (Z.to_pos m') e'.

Definition with_sign (neg : bool) (x : double) : double :=
  match x with
  | S754_zero _ => S754_zero neg
  | S754_infinity _ => S754_infinity neg
  | S754_finite _ m e => S754_finite neg m e
  | S754_nan => S754_nan
  end.

(** The value of the decimal [s * 10^j], rounded. *)
Definition round_dec (neg : bool) (s j : Z) : double :=
  if s =? 0 then S754_zero neg
  else round_pos neg (fst (scale 10 s 1 j)) (snd (scale 10 s 1 j)).

Definition double_eqb (x y : double) : bool :=
  match x, y with
  | S754_zero s, S754_zero s' => Bool.eqb s s'
  | S754_infinity s, S754_infinity s' => Bool.eqb s s'
  | S754_nan, S754_nan => true
  | S754_finite s m e, S754_finite s' m' e' => Bool.eqb s s' && Pos.eqb m m' && Z.eqb e e'
  | _, _ => false
  end.

(** ** Decimal digits *)
Definition dval (l : list Z) : Z := fold_left (fun acc d => acc * 10 + d) l 0.

(** The [k] last decimal digits of [s], most significant first. *)
Fixpoint digits_n (k : nat) (s : Z) : list Z :=
  match k with
  | O => []
  | S k' => digits_n k' (s / 10) ++ [s mod 10]
  end.

Definition is_dig (d : Z) : Prop := 0 <= d <= 9.

(** ** Shortest decimal digits (Number::toString, step 5) *)
(** At precision [k], the candidates are the [k]-digit decimals just below and
    just above the value [a / b], whose decimal exponent is [n0]. *)
Definition pick (x : double) (a b n0 k : Z) : option (Z * Z) :=
  let '(c, d) := scale 10 a b (k - n0) in
  let s1 := c / d in
  let '(s2, n2) := if s1 + 1 <? 10 ^ k then (s1 + 1, n0) else (10 ^ (k - 1), n0 + 1) in
  let ok1 := double_eqb (round_dec false s1 (n0 - k)) x in
  let ok2 := double_eqb (round_dec false s2 (n2 - k)) x in
  if ok1 && ok2 then
    match Z.compare (c - s1 * d) (s1 * d + d - c) with
    | Lt => Some (s1, n0)
    | Gt => Some (s2, n2)
    | Eq => if Z.even s1 then Some (s1, n0) else Some (s2, n2)
    end
  else if ok1 then Some (s1, n0)
  else if ok2 then Some (s2, n2)
  else None.

Fixpoint search (x : double) (a b n0 : Z) (fuel : nat) (k : Z) : option (Z * Z * Z) :=
  match fuel with
  | O => None
  | S f =>
      match pick x a b n0 k with
      | Some (s, n) => Some (s, k, n)
      | None => search x a b n0 f (k + 1)
      end
  end.

(** The digits [s], their number [k] and the exponent [n] of the positive
    double [m * 2^e]. *)
Definition shortest (m : positive) (e : Z) : option (Z * Z * Z) :=
  let '(a, b) := scale 2 (Zpos m) 1 e in
  let n0 := flog10 a b + 1 in
  search (S754_finite false m e) a b n0 (Z.to_nat (n0 + Z.max 0 (- e))) 1.

(** ** Number::toString *)
Definition digit_char (d : Z) : Z := 48 + d.

(** Decimal text of a nonnegative integer. *)
Definition int_text (z : Z) : list Z :=
  if z =? 0 then [48] else map digit_char (digits_n (S (Z.to_nat (ilog10 z))) z).

(** ["e"], the sign and the digits of the exponent [x]. *)
Definition exp_text (x : Z) : list Z :=
  101 :: (if 0 <=? x then 43 else 45) :: int_text (Z.abs x).

(** Steps 6 to 10 of Number::toString for the digits [s], [k] of them, and the
    exponent [n]. *)
Definition format (s k n : Z) : list Z :=
  let ds := map digit_char (digits_n (Z.to_nat k) s) in
  if (k <=? n) && (n <=? 21) then ds ++ repeat 48 (Z.to_nat (n - k))
  else if (0 <? n) && (n <=? 21) then firstn (Z.to_nat n) ds ++ 46 :: skipn (Z.to_nat n) ds
  else if (-6 <? n) && (n <=? 0) then 48 :: 46 :: repeat 48 (Z.to_nat (- n)) ++ ds
  else if k =? 1 then ds ++ exp_text (n - 1)
  else firstn 1 ds ++ 46 :: skipn 1 ds ++ exp_text (n - 1).

Definition Number_toString (x : double) : list Z :=
  match x with
  | S754_nan => [78; 97; 78]
  | S754_zero _ => [48]
  | S754_infinity neg => (if neg then [45] else []) ++ [73; 110; 102; 105; 110; 105; 116; 121]
  | S754_finite neg m e =>
      (if neg then [45] else []) ++
      match shortest m e with
      | Some (s, k, n) => format s k n
      | None => []
      end
  end.

(** ** Number syntax of JSON.parse *)
Definition is_digit_unit (c : Z) : bool := (48 <=? c) && (c <=? 57).

Fixpoint take_digits (s : list Z) : list Z * list Z :=
  match s with
  | c :: r =>
      if is_digit_unit c then let '(ds, r') := take_digits r in ((c - 48) :: ds, r')
      else ([], s)
  | [] => ([], [])
  end.

Definition parse_int_part (s : list Z) : option (list Z * list Z) :=
  match s with
  | c :: r =>
      if c =? 48 then Some ([0], r)
      else if is_digit_unit c then Some (take_digits s)
      else None
  | [] => None
  end.

Definition parse_frac (s : list Z) : option (list Z * list Z) :=
  match s with
  | c :: r =>
      if c =? 46 then
        match take_digits r with
        | ([], _) => None
        | (ds, r') => Some (ds, r')
        end
      else Some ([], s)
  | [] => Some ([], [])
  end.

Definition parse_exp (s : list Z) : option (Z * list Z) :=
  match s with
  | c :: r =>
      if (c =? 101) || (c =? 69) then
        let '(sg, r1) :=
          match r with
          | c1 :: r1' => if c1 =? 43 then (1, r1') else if c1 =? 45 then (-1, r1') else (1, r)
          | [] => (1, r)
          end in
        match take_digits r1 with
        | ([], _) => None
        | (ds, r2) => Some (sg * dval ds, r2)
        end
      else Some (0, s)
  | [] => Some (0, [])
  end.

(** The number after an optional minus sign: integer part, fraction, exponent. *)
Definition parse_unsigned (neg : bool) (s : list Z) : option (double * list Z) :=
  match parse_int_part s with
  | Some (ip, s2) =>
      match parse_frac s2 with
      | Some (fp, s3) =>
          match parse_exp s3 with
          | Some (xp, s4) => Some (round_dec neg (dval (ip ++ fp)) (xp - Z.of_nat (length fp)), s4)
          | None => None
          end
      | None => None
      end
  | None => None
  end.

Definition parse_number (s : list Z) : option (double * list Z) :=
  match s with
  | c :: r => if c =? 45 then parse_unsigned true r else parse_unsigned false s
  | [] => None
  end.

(** A text that cannot continue a number. *)
Definition stop (t : list Z) : Prop :=
  match t with c :: _ => is_digit_unit c = false | [] => True end.

Definition num_end (t : list Z) : Prop :=
  match t with
  | c :: _ => is_digit_unit c = false /\ c <> 46 /\ c <> 101 /\ c <> 69
  | [] => True
  end.
Definition is_finite (x : double) : bool :=
  match x with S754_zero _ | S754_finite _ _ _ => true | _ => false end.

Definition num_norm (x : double) : double :=
  match x with S754_zero _ => S754_zero false | _ => x end.

(** The JavaScript number of an integer (exact below 2^53). *)
Definition double_of_Z (z : Z) : double := round_dec (z <? 0) (Z.abs z) 0.

(** The integer a double stands for, when it is one. *)
Definition Z_of_double (x : double) : option Z :=
  match x with
  | S754_zero _ => Some 0
  | S754_finite neg m e =>
      let v := if 0 <=? e then Some (Zpos m * 2 ^ e)
               else if Zpos m mod 2 ^ (- e) =? 0 then Some (Zpos m / 2 ^ (- e)) else None in
      match v with Some a => Some (if neg then - a else a) | None => None end
  | _ => None
  end.

Definition safe_int (z : Z) : Prop := Z.abs z < 2 ^ 53.
#[local] Set Warnings "-register-all".
Module Json.

Inductive json :=
| JNull
| JBool (b : bool)
| JNum (x : double)
| JStr (s : list Z)
| JArr (l : list json)
| JObj (m : list (list Z * json)).

Definition null_text : list Z := [110; 117; 108; 108].
Definition true_text : list Z := [116; 114; 117; 101].
Definition false_text : list Z := [102; 97; 108; 115; 101].

Definition hex_digit (n : Z) : Z := if n <? 10 then 48 + n else 87 + n.

(** UnicodeEscape: [\u] and four lowercase hexadecimal digits. *)
Definition u_escape (c : Z) : list Z :=
  [92; 117; hex_digit (c / 4096); hex_digit (c / 256 mod 16);
   hex_digit (c / 16 mod 16); hex_digit (c mod 16)].

Definition is_lead (c : Z) : bool := (55296 <=? c) && (c <=? 56319).
Definition is_trail (c : Z) : bool := (56320 <=? c) && (c <=? 57343).

(** QuoteJSONString for one code point that is not a surrogate pair. *)
Definition escape_unit (c : Z) : list Z :=
  if c =? 8 then [92; 98]
  else if c =? 9 then [92; 116]
  else if c =? 10 then [92; 110]
  else if c =? 12 then [92; 102]
  else if c =? 13 then [92; 114]
  else if c =? 34 then [92; 34]
  else if c =? 92 then [92; 92]
  else if (c <? 32) || is_lead c || is_trail c then u_escape c
  else [c].

(** QuoteJSONString over the code points of the string: a surrogate pair
    is copied, a lone surrogate is escaped. *)
Fixpoint escape_units (s : list Z) : list Z :=
  match s with
  | [] => []
  | c :: r =>
      if is_lead c then
        match r with
        | c2 :: r2 => if is_trail c2 then c :: c2 :: escape_units r2
                      else escape_unit c ++ escape_units r
        | [] => escape_unit c
        end
      else escape_unit c ++ escape_units r
  end.

Definition quote (s : list Z) : list Z := 34 :: escape_units s ++ [34].

(** The texts joined with commas. *)
Fixpoint join (l : list (list Z)) : list Z :=
  match l with
  | [] => []
  | [x] => x
  | x :: r => x ++ 44 :: join r
  end.

(** [JSON.stringify]: a number that is not finite is written [null]. *)
Fixpoint stringify (v : json) : list Z :=
  match v with
  | JNull => null_text
  | JBool true => true_text
  | JBool false => false_text
  | JNum x => if is_finite x then Number_toString x else null_text
  | JStr s => quote s
  | JArr l => 91 :: join (map stringify l) ++ [93]
  | JObj m => 123 :: join (map (fun kv => quote (fst kv) ++ 58 :: stringify (snd kv)) m) ++ [125]
  end.

(** Parsing. *)

Definition is_ws (c : Z) : bool := (c =? 32) || (c =? 9) || (c =? 10) || (c =? 13).

Fixpoint skip_ws (s : list Z) : list Z :=
  match s with
  | c :: r => if is_ws c then skip_ws r else s
  | [] => []
  end.

Definition next_char (s : list Z) : option (Z * list Z) :=
  match skip_ws s with
  | c :: r => Some (c, r)
  | [] => None
  end.

Fixpoint strip_prefix (p s : list Z) : option (list Z) :=
  match p, s with
  | [], _ => Some s
  | a :: p', b :: s' => if a =? b then strip_prefix p' s' else None
  | _, _ => None
  end.

Definition simple_escape (e : Z) : option Z :=
  if e =? 34 then Some 34
  else if e =? 92 then Some 92
  else if e =? 47 then Some 47
  else if e =? 98 then Some 8
  else if e =? 102 then Some 12
  else if e =? 110 then Some 10
  else if e =? 114 then Some 13
  else if e =? 116 then Some 9
  else None.

Definition hex_val (c : Z) : option Z :=
  if (48 <=? c) && (c <=? 57) then Some (c - 48)
  else if (97 <=? c) && (c <=? 102) then Some (c - 87)
  else if (65 <=? c) && (c <=? 70) then Some (c - 55)
  else None.

Definition hex4 (a b c d : Z) : option Z :=
  match hex_val a, hex_val b, hex_val c, hex_val d with
  | Some x1, Some x2, Some x3, Some x4 => Some (x1 * 4096 + x2 * 256 + x3 * 16 + x4)
  | _, _, _, _ => None
  end.

Definition cons_unit (c : Z) (r : option (list Z * list Z)) : option (list Z * list Z) :=
  match r with
  | Some (t, rest) => Some (c :: t, rest)
  | None => None
  end.

(** The code units of a string literal after its opening quote, up to and
    including the closing quote. *)
Fixpoint parse_chars (s : list Z) : option (list Z * list Z) :=
  match s with
  | [] => None
  | c :: r =>
      if c =? 34 then Some ([], r)
      else if c =? 92 then
        match r with
        | e :: r1 =>
            match simple_escape e with
            | Some c' => cons_unit c' (parse_chars r1)
            | None =>
                if e =? 117 then
                  match r1 with
                  | h1 :: h2 :: h3 :: h4 :: r2 =>
                      match hex4 h1 h2 h3 h4 with
                      | Some c' => cons_unit c' (parse_chars r2)
                      | None => None
                      end
                  | _ => None
                  end
                else None
            end
        | [] => None
        end
      else if c <? 32 then None
      else cons_unit c (parse_chars r)
  end.

Fixpoint parse_value (fuel : nat) (s : list Z) {struct fuel} : option (json * list Z) :=
  match fuel with
  | O => None
  | S f =>
    let s0 := skip_ws s in
    match strip_prefix null_text s0 with
    | Some r => Some (JNull, r)
    | None =>
    match strip_prefix true_text s0 with
    | Some r => Some (JBool true, r)
    | None =>
    match strip_prefix false_text s0 with
    | Some r => Some (JBool false, r)
    | None =>
    match s0 with
    | c :: r =>
        if c =? 34 then
          match parse_chars r with
          | Some (t, r') => Some (JStr t, r')
          | None => None
          end
        else if c =? 91 then
          match next_char r with
          | Some (c', r') =>
              if c' =? 93 then Some (JArr [], r')
              else match parse_elems f r with
                   | Some (vs, r'') => Some (JArr vs, r'')
                   | None => None
                   end
          | None => None
          end
        else if c =? 123 then
          match next_char r with
          | Some (c', r') =>
              if c' =? 125 then Some (JObj [], r')
              else match parse_members f r with
                   | Some (ms, r'') => Some (JObj ms, r'')
                   | None => None
                   end
          | None => None
          end
        else match parse_number s0 with
             | Some (x, r') => Some (JNum x, r')
             | None => None
             end
    | [] => None
    end end end end
  end
with parse_elems (fuel : nat) (s : list Z) {struct fuel} : option (list json * list Z) :=
  match fuel with
  | O => None
  | S f =>
    match parse_value f s with
    | Some (v, r) =>
        match next_char r with
        | Some (c, r') =>
            if c =? 44 then
              match parse_elems f r' with
              | Some (vs, r'') => Some (v :: vs, r'')
              | None => None
              end
            else if c =? 93 then Some ([v], r')
            else None
        | None => None
        end
    | None => None
    end
  end
with parse_members (fuel : nat) (s : list Z) {struct fuel}
    : option (list (list Z * json) * list Z) :=
  match fuel with
  | O => None
  | S f =>
    match next_char s with
    | Some (c, r) =>
        if c =? 34 then
          match parse_chars r with
          | Some (k, r1) =>
              match next_char r1 with
              | Some (c1, r2) =>
                  if c1 =? 58 then
                    match parse_value f r2 with
                    | Some (v, r3) =>
                        match next_char r3 with
                        | Some (c3, r4) =>
                            if c3 =? 44 then
                              match parse_members f r4 with
                              | Some (ms, r5) => Some ((k, v) :: ms, r5)
                              | None => None
                              end
                            else if c3 =? 125 then Some ([(k, v)], r4)
                            else None
                        | None => None
                        end
                    | None => None
                    end
                  else None
              | None => None
              end
          | None => None
          end
        else None
    | None => None
    end
  end.

Definition json_parse (s : list Z) : option json :=
  match parse_value (S (2 * length s)) s with
  | Some (v, r) =>
      match skip_ws r with
      | [] => Some v
      | _ => None
      end
  | None => None
  end.

End Json.
Import Json.

Definition is_unit (c : Z) : bool := (0 <=? c) && (c <? 65536).

(** JavaScript values: numbers are binary64 values, strings hold code units. *)
Fixpoint json_okb (v : json) : bool :=
  match v with
  | JNum x => valid_binary 53 1024 x
  | JStr s => forallb is_unit s
  | JArr l => forallb json_okb l
  | JObj m => forallb (fun kv => forallb is_unit (fst kv) && json_okb (snd kv)) m
  | _ => true
  end.

(** What [JSON.parse(JSON.stringify(v))] gives: [NaN] and the infinities
    become [null], [-0] becomes [0]. *)
Fixpoint json_norm (v : json) : json :=
  match v with
  | JNum x => if is_finite x then JNum (num_norm x) else JNull
  | JArr l => JArr (map json_norm l)
  | JObj m => JObj (map (fun kv => (fst kv, json_norm (snd kv))) m)
  | _ => v
  end.
Definition member_text (kv : list Z * json) : list Z :=
  quote (fst kv) ++ 58 :: stringify (snd kv).

Fixpoint jsize (v : json) : nat :=
  match v with
  | JArr l => S (fold_right (fun e acc => S (jsize e + acc)) 0%nat l)
  | JObj m => S (fold_right (fun kv acc => S (jsize (snd kv) + acc)) 0%nat m)
  | _ => 1%nat
  end.

Definition esize (l : list json) : nat :=
  fold_right (fun e acc => S (jsize e + acc)) 0%nat l.

Definition msize (m : list (list Z * json)) : nat :=
  fold_right (fun kv acc => S (jsize (snd kv) + acc)) 0%nat m.

Section JsonInd.
Variable P : json -> Prop.
Hypothesis HNull : P JNull.
Hypothesis HBool : forall b, P (JBool b).
Hypothesis HNum : forall x, P (JNum x).
Hypothesis HStr : forall s, P (JStr s).
Hypothesis HArr : forall l, Forall P l -> P (JArr l).
Hypothesis HObj : forall m, Forall (fun kv => P (snd kv)) m -> P (JObj m).

Fixpoint json_ind' (v : json) : P v :=
  match v with
  | JNull => HNull
  | JBool b => HBool b
  | JNum x => HNum x
  | JStr s => HStr s
  | JArr l =>
      HArr l ((fix go (l : list json) : Forall P l :=
                 match l with
                 | [] => List.Forall_nil P
                 | x :: r => @List.Forall_cons _ _ x r (json_ind' x) (go r)
                 end) l)
  | JObj m =>
      HObj m ((fix go (m : list (list Z * json)) : Forall (fun kv => P (snd kv)) m :=
                 match m with
                 | [] => List.Forall_nil _
                 | kv :: r => @List.Forall_cons _ (fun kv => P (snd kv)) kv r (json_ind' (snd kv)) (go r)
                 end) m)
  end.
End JsonInd.

Definition parses (v : json) : Prop :=
  forall h t, (jsize v <= h)%nat -> num_end t ->
  parse_value h (stringify v ++ t) = Some (json_norm v, t).
Definition pv_ok (f : nat) : Prop :=
  forall s v r, parse_value f s = Some (v, r) ->
  (length r < length s)%nat /\
  forall g, (2 * (length s - length r) <= g)%nat -> parse_value (S g) s = Some (v, r).

Definition pe_ok (f : nat) : Prop :=
  forall s vs r, parse_elems f s = Some (vs, r) ->
  (length r < length s)%nat /\
  forall g, (2 * (length s - length r) <= g)%nat -> parse_elems g s = Some (vs, r).

Definition pm_ok (f : nat) : Prop :=
  forall s ms r, parse_members f s = Some (ms, r) ->
  (length r < length s)%nat /\
  forall g, (2 * (length s - length r) <= g)%nat -> parse_members g s = Some (ms, r).
(* ------------------------------------------------------------------ *)
(** ** Data model: [interface CartItem] *)

Record CartItem := mkCartItem {
  id : string;
  name : string;
  price : double;
  quantity : Z;
  image : option string  (* [image?: string] *)
}.

(** The argument of [addItem]: [Omit<CartItem, 'quantity'>]. *)
Record NewItem := mkNewItem {
  n_id : string;
  n_name : string;
  n_price : double;
  n_image : option string
}.

(** [{ ...i, quantity: q }] *)
Definition with_quantity (i : CartItem) (q : Z) : CartItem :=
  mkCartItem (id i) (name i) (price i) q (image i).

(** [{ ...item, quantity: 1 }] *)
Definition line_of (item : NewItem) : CartItem :=
  mkCartItem (n_id item) (n_name item) (n_price item) 1 (n_image item).

Definition ids (items : list CartItem) : list string := map id items.

(** JavaScript's [+] and [*] on numbers (binary64, round to nearest, ties
    to even) and the number [0]. *)
Definition js_add (x y : double) : double := SFadd 53 1024 x y.
Definition js_mul (x y : double) : double := SFmul 53 1024 x y.
Definition js_zero : double := S754_zero false.

(* ------------------------------------------------------------------ *)
(** ** Pure parts of the mutations (the computation of [newItems]) *)

(** [addItem]: [items.find(i => i.id === item.id)], then either the
    [map] that increments the matching lines or the append. *)
Definition addItem_items (items : list CartItem) (item : NewItem)
    : list CartItem :=
  match List.find (fun i => String.eqb (id i) (n_id item)) items with
  | Some _ =>
      map (fun i => if String.eqb (id i) (n_id item)
                    then with_quantity i (quantity i + 1) else i) items
  | None => items ++ [line_of item]
  end.

(** [removeItem]: [items.filter(i => i.id !== id)]. *)
Definition removeItem_items (items : list CartItem) (pid : string)
    : list CartItem :=
  List.filter (fun i => negb (String.eqb (id i) pid)) items.

(** The [else] branch of [updateQuantity]. *)
Definition setQuantity_items (items : list CartItem) (pid : string) (q : Z)
    : list CartItem :=
  map (fun i => if String.eqb (id i) pid then with_quantity i q else i) items.

(** [updateQuantity]: [quantity <= 0] delegates to [removeItem]. *)
Definition updateQuantity_items (items : list CartItem) (pid : string) (q : Z)
    : list CartItem :=
  if q <=? 0 then removeItem_items items pid else setQuantity_items items pid q.

(** [getTotalItems]: [items.reduce((total, item) => total + item.quantity, 0)]. *)
Definition getTotalItems_items (items : list CartItem) : Z :=
  fold_left (fun total item => total + quantity item) items 0.

(** [getTotalPrice]:
    [items.reduce((total, item) => total + (item.price * item.quantity), 0)],
    in binary64 arithmetic. *)
Definition getTotalPrice_items (items : list CartItem) : double :=
  fold_left (fun total item => js_add total (js_mul (price item) (double_of_Z (quantity item))))
    items js_zero.

(** A left-to-right binary64 sum. *)
Definition js_sum (xs : list double) : double := fold_left js_add xs js_zero.
(* ------------------------------------------------------------------ *)
(** ** The persisted form of the cart *)

(** The code units of a string of the model. *)
Definition js (s : string) : list Z :=
  map (fun a => Z.of_nat (nat_of_ascii a)) (list_ascii_of_string s).

(** Back from code units to a string of the model, when every unit is
    below 256. *)
Fixpoint of_js (l : list Z) : option string :=
  match l with
  | [] => Some EmptyString
  | c :: r =>
      if (0 <=? c) && (c <? 256) then
        match of_js r with
        | Some s => Some (String (ascii_of_nat (Z.to_nat c)) s)
        | None => None
        end
      else None
  end.

(** The JavaScript object of a cart line as [JSON.stringify] sees it.
    Lines are built as [{ ...item, quantity: 1 }] from the object
    [{ id, name, price, image }] of the menu screen, so [quantity] comes
    last; an [image] holding [undefined] is skipped by [JSON.stringify]. *)
Definition item_to_json (i : CartItem) : json :=
  JObj ([(js "id", JStr (js (id i))); (js "name", JStr (js (name i)));
         (js "price", JNum (price i))]
        ++ match image i with Some u => [(js "image", JStr (js u))] | None => [] end
        ++ [(js "quantity", JNum (double_of_Z (quantity i)))]).

Definition items_to_json (items : list CartItem) : json :=
  JArr (map item_to_json items).

(** Property read on a parsed object: with duplicate keys [JSON.parse]
    keeps the last one. *)
Fixpoint prop (k : list Z) (m : list (list Z * json)) : option json :=
  match m with
  | [] => None
  | (k', v) :: r =>
      match prop k r with
      | Some x => Some x
      | None => if List.list_eq_dec Z.eq_dec k k' then Some v else None
      end
  end.

(** Which JavaScript values inhabit the TypeScript type [CartItem]
    (the source casts the parsed value to [CartItem[]] unchecked; this
    reading is only used to state what a loaded value means). *)
Definition item_of_json (v : json) : option CartItem :=
  match v with
  | JObj m =>
      match prop (js "id") m, prop (js "name") m, prop (js "price") m,
            prop (js "quantity") m, prop (js "image") m with
      | Some (JStr i), Some (JStr n), Some (JNum p), Some (JNum q), img =>
          match of_js i, of_js n, Z_of_double q with
          | Some i', Some n', Some q' =>
              match img with
              | None => Some (mkCartItem i' n' p q' None)
              | Some (JStr u) =>
                  match of_js u with
                  | Some u' => Some (mkCartItem i' n' p q' (Some u'))
                  | None => None
                  end
              | Some _ => None
              end
          | _, _, _ => None
          end
      | _, _, _, _, _ => None
      end
  | _ => None
  end.

Fixpoint items_of_list (l : list json) : option (list CartItem) :=
  match l with
  | [] => Some []
  | v :: r =>
      match item_of_json v, items_of_list r with
      | Some i, Some is => Some (i :: is)
      | _, _ => None
      end
  end.

Definition cart_of_json (v : json) : option (list CartItem) :=
  match v with
  | JArr l => items_of_list l
  | _ => None
  end.

(** A line whose text parses back to it: a finite price and a quantity
    that is a safe integer. *)
Definition line_ok (i : CartItem) : Prop :=
  valid_binary 53 1024 (price i) = true /\ is_finite (price i) = true
  /\ safe_int (quantity i).

(** [line_ok] as a test. *)
Definition line_okb (i : CartItem) : bool :=
  valid_binary 53 1024 (price i) && is_finite (price i) && (Z.abs (quantity i) <? 2 ^ 53).

(** The line as it comes back from its text: [JSON.stringify] writes the
    price [-0] as [0]. *)
Definition price_norm (i : CartItem) : CartItem :=
  mkCartItem (id i) (name i) (num_norm (price i)) (quantity i) (image i).

(* ------------------------------------------------------------------ *)
(** ** Browser storage and exceptions *)

(** Completion of a JavaScript computation: a value, or a thrown
    exception. *)
Inductive completion (A : Type) :=
| Normal (a : A)
| Throw.
Arguments Normal {A} a.
Arguments Throw {A}.

Definition bind {A B} (c : completion A) (k : A -> completion B) : completion B :=
  match c with
  | Normal a => k a
  | Throw => Throw
  end.

Notation "x <- c ;; k" := (bind c (fun x => k))
  (at level 100, c at next level, right associativity).

(** [try { body } catch { return handler; }] *)
Definition try_catch {A} (body : completion A) (handler : A) : A :=
  match body with
  | Normal a => a
  | Throw => handler
  end.

(** The host: whether [window] exists (it does not during server-side
    rendering), whether touching [localStorage] throws (storage disabled,
    access denied), whether [setItem] throws (quota exceeded), and the
    stored strings, as code units. *)
Record Browser := mkBrowser {
  has_window : bool;
  ls_accessible : bool;
  ls_writable : bool;
  ls_data : gmap string (list Z)
}.

Definition localStorage_getItem (b : Browser) (k : string)
    : completion (option (list Z)) :=
  if ls_accessible b then Normal (ls_data b !! k) else Throw.

Definition localStorage_setItem (b : Browser) (k : string) (v : list Z)
    : completion Browser :=
  if ls_accessible b && ls_writable b
  then Normal (mkBrowser (has_window b) (ls_accessible b) (ls_writable b)
                         (<[k := v]> (ls_data b)))
  else Throw.

(** [JSON.parse] throws a [SyntaxError] on a text that is not JSON. *)
Definition JSON_parse (s : list Z) : completion json :=
  match json_parse s with
  | Some v => Normal v
  | None => Throw
  end.

Definition cart_key : string := "seven-cart".

(** [getStoredCart]: [stored ? JSON.parse(stored) : []], where both
    [null] and the empty string are falsy. *)
Definition getStoredCart (b : Browser) : json :=
  if negb (has_window b) then JArr []
  else try_catch
         (stored <- localStorage_getItem b cart_key ;;
          match stored with
          | Some [] => Normal (JArr [])
          | Some s => JSON_parse s
          | None => Normal (JArr [])
          end)
         (JArr []).

(** [saveCart]: errors of [setItem] are ignored. *)
Definition saveCart (items : list CartItem) (b : Browser) : Browser :=
  if negb (has_window b) then b
  else try_catch (localStorage_setItem b cart_key (stringify (items_to_json items))) b.
(* ------------------------------------------------------------------ *)
(** ** The store: in-memory [items] plus the browser *)

Record World := mkWorld {
  items : list CartItem;
  browser : Browser
}.

(** [set({ items: newItems }); saveCart(newItems);] *)
Definition commit (w : World) (newItems : list CartItem) : World :=
  mkWorld newItems (saveCart newItems (browser w)).

Definition addItem (w : World) (item : NewItem) : World :=
  commit w (addItem_items (items w) item).

Definition removeItem (w : World) (pid : string) : World :=
  commit w (removeItem_items (items w) pid).

(** [updateQuantity]: [quantity <= 0] calls [get().removeItem(id)]. *)
Definition updateQuantity (w : World) (pid : string) (q : Z) : World :=
  if q <=? 0 then removeItem w pid
  else commit w (setQuantity_items (items w) pid q).

Definition clearCart (w : World) : World := commit w [].

Definition getTotalItems (w : World) : Z := getTotalItems_items (items w).
Definition getTotalPrice (w : World) : double := getTotalPrice_items (items w).

(** [loadFromStorage]: the loaded value, read as a cart. *)
Definition loaded_cart (b : Browser) : option (list CartItem) :=
  cart_of_json (getStoredCart b).

(** Calls a screen can make on the store. *)
Inductive Op :=
| OpAdd (item : NewItem)
| OpRemove (pid : string)
| OpUpdate (pid : string) (q : Z)
| OpClear.

Definition step (w : World) (o : Op) : World :=
  match o with
  | OpAdd it => addItem w it
  | OpRemove pid => removeItem w pid
  | OpUpdate pid q => updateQuantity w pid q
  | OpClear => clearCart w
  end.

Definition run (ops : list Op) (w : World) : World := fold_left step ops w.

(** The ids of the lines created by a sequence of calls, in creation
    order: [addItem] creates a line exactly when [find] misses. *)
Fixpoint created (ops : list Op) (w : World) : list string :=
  match ops with
  | [] => []
  | o :: r =>
      let fresh :=
        match o with
        | OpAdd it =>
            match List.find (fun i => String.eqb (id i) (n_id it)) (items w) with
            | Some _ => []
            | None => [n_id it]
            end
        | _ => []
        end in
      fresh ++ created r (step w o)
  end.


(* ------------------------------------------------------------------ *)
(** ** The storage adapter of the persisted store ([customStorage] of the
    [persist] variant of the store, file part_000)

    [getItem] reads and parses, [setItem] stringifies and writes,
    [removeItem] deletes; each is guarded by [typeof window !== 'undefined'
    && window.localStorage] and swallows errors.  JavaScript [null] is
    [JNull]. *)

Definition localStorage_removeItem (b : Browser) (k : string) : completion Browser :=
  if ls_accessible b
  then Normal (mkBrowser (has_window b) (ls_accessible b) (ls_writable b)
                         (delete k (ls_data b)))
  else Throw.

Module customStorage.
Definition getItem (b : Browser) (name : string) : json :=
  if negb (has_window b) then JNull
  else try_catch
         (item <- localStorage_getItem b name ;;
          match item with
          | Some [] => Normal JNull
          | Some s => JSON_parse s
          | None => Normal JNull
          end)
         JNull.

Definition setItem (b : Browser) (name : string) (value : json) : Browser :=
  if negb (has_window b) then b
  else try_catch (localStorage_setItem b name (stringify value)) b.

Definition removeItem (b : Browser) (name : string) : Browser :=
  if negb (has_window b) then b
  else try_catch (localStorage_removeItem b name) b.
End customStorage.

(* ------------------------------------------------------------------ *)
(** ** The storage adapter of the web/mobile variant of the store
    ([customStorage] given to [createJSONStorage], second half of
    cartStore.ts)

    On the web it uses [localStorage] (a [ReferenceError] when there is
    no [window], caught like the other errors); elsewhere it awaits
    [AsyncStorage], whose errors are not caught. *)

Record Device := mkDevice {
  is_web : bool;
  device_browser : Browser;
  async_ok : bool;
  async_data : gmap string (list Z)
}.

Definition global_localStorage_getItem (b : Browser) (k : string)
    : completion (option (list Z)) :=
  if has_window b then localStorage_getItem b k else Throw.

Definition global_localStorage_setItem (b : Browser) (k : string) (v : list Z)
    : completion Browser :=
  if has_window b then localStorage_setItem b k v else Throw.

Definition global_localStorage_removeItem (b : Browser) (k : string)
    : completion Browser :=
  if has_window b then localStorage_removeItem b k else Throw.

Definition AsyncStorage_getItem (d : Device) (k : string) : completion (option (list Z)) :=
  if async_ok d then Normal (async_data d !! k) else Throw.

Definition AsyncStorage_setItem (d : Device) (k : string) (v : list Z) : completion Device :=
  if async_ok d
  then Normal (mkDevice (is_web d) (device_browser d) (async_ok d) (<[k := v]> (async_data d)))
  else Throw.

Definition AsyncStorage_removeItem (d : Device) (k : string) : completion Device :=
  if async_ok d
  then Normal (mkDevice (is_web d) (device_browser d) (async_ok d) (delete k (async_data d)))
  else Throw.

Definition with_web (d : Device) (b : Browser) : Device :=
  mkDevice (is_web d) b (async_ok d) (async_data d).

Module customStorage_platform.
Definition getItem (d : Device) (name : string) : completion (option (list Z)) :=
  if is_web d
  then Normal (try_catch (global_localStorage_getItem (device_browser d) name) None)
  else AsyncStorage_getItem d name.

Definition setItem (d : Device) (name : string) (value : list Z) : completion Device :=
  if is_web d
  then Normal (with_web d (try_catch (global_localStorage_setItem (device_browser d) name value) (device_browser d)))
  else AsyncStorage_setItem d name value.

Definition removeItem (d : Device) (name : string) : completion Device :=
  if is_web d
  then Normal (with_web d (try_catch (global_localStorage_removeItem (device_browser d) name) (device_browser d)))
  else AsyncStorage_removeItem d name.
End customStorage_platform.

(* ------------------------------------------------------------------ *)
(** ** The remaining store actions and the screens that call the store *)

(** [saveToStorage: () => saveCart(get().items)] *)
Definition saveToStorage (w : World) : World :=
  mkWorld (items w) (saveCart (items w) (browser w)).

(** [loadFromStorage]: the value [set] into [items] is [getStoredCart()]. *)
Definition loadFromStorage (w : World) : json := getStoredCart (browser w).

(** Cart screen with checkout form: the minus button. *)
Definition decrement_button (w : World) (item : CartItem) : World :=
  if 1 <? quantity item then updateQuantity w (id item) (quantity item - 1)
  else removeItem w (id item).

(** Simple cart screen: the minus button. *)
Definition decrement_button_simple (w : World) (item : CartItem) : World :=
  updateQuantity w (id item) (quantity item - 1).

(** Both cart screens: the plus button. *)
Definition increment_button (w : World) (item : CartItem) : World :=
  updateQuantity w (id item) (quantity item + 1).

(** The menu screen's [Product]. *)
Record Product := mkProduct {
  product_id : string;
  product_name : string;
  product_description : string;
  product_price : double;
  product_image : option string;
  product_badges : list string;
  product_category_id : string;
  product_active : bool;
  product_stock_enabled : bool;
  product_stock_quantity : Z
}.

Definition checkStock (p : Product) : bool :=
  if negb (product_stock_enabled p) then true
  else 0 <? product_stock_quantity p.

(** [addToCart]: the alerts aside, an out-of-stock product leaves the
    store alone. *)
Definition addToCart (w : World) (p : Product) : World :=
  if negb (checkStock p) then w
  else addItem w (mkNewItem (product_id p) (product_name p) (product_price p)
                            (product_image p)).

(** [/\D/g]: everything but ASCII digits. *)
Definition is_digit (c : ascii) : bool :=
  (Nat.leb 48 (nat_of_ascii c) && Nat.leb (nat_of_ascii c) 57)%bool.

(** [s.replace(/\D/g, '')] *)
Fixpoint strip_non_digits (s : string) : string :=
  match s with
  | EmptyString => EmptyString
  | String c r => if is_digit c then String c (strip_non_digits r) else strip_non_digits r
  end.

(** Checkout: [let phone = whatsapp.replace(/\D/g, '');
    if (!phone.startsWith('55')) phone = '55' + phone;] *)
Definition checkout_phone (whatsapp : string) : string :=
  let phone := strip_non_digits whatsapp in
  if String.prefix "55"%string phone then phone else ("55" ++ phone)%string.

(** The characters [String.prototype.trim] removes, among code units
    0..255: tab, line feed, vertical tab, form feed, carriage return,
    space and no-break space. *)
Definition is_js_ws (c : ascii) : bool :=
  let n := nat_of_ascii c in
  ((Nat.leb 9 n && Nat.leb n 13) || Nat.eqb n 32 || Nat.eqb n 160)%bool.

Fixpoint drop_ws (l : list ascii) : list ascii :=
  match l with
  | [] => []
  | c :: r => if is_js_ws c then drop_ws r else l
  end.

(** [s.trim()] *)
Definition trim (s : string) : string :=
  string_of_list_ascii (rev (drop_ws (rev (drop_ws (list_ascii_of_string s))))).

(** [!s.trim()]: the string has only characters [trim] removes. *)
Definition js_blank (s : string) : Prop :=
  Forall (fun c => is_js_ws c = true) (list_ascii_of_string s).

(** The checks of [handleCheckout] on the checkout screen, in order; the
    first failing one shows its alert and returns. *)
Inductive CheckoutOutcome :=
| AlertEmptyCart
| AlertName
| AlertAddress
| AlertPayment
| AlertWhatsapp
| SendOrder.

Record CheckoutForm := mkCheckoutForm {
  customerName : string;
  street : string;
  number : string;
  neighborhood : string;
  paymentMethod : string;
  whatsapp : string
}.

Definition handleCheckout_checks (l : list CartItem) (f : CheckoutForm) : CheckoutOutcome :=
  if Nat.eqb (length l) 0 then AlertEmptyCart
  else if String.eqb (trim (customerName f)) EmptyString then AlertName
  else if (String.eqb (trim (street f)) EmptyString
           || String.eqb (trim (number f)) EmptyString
           || String.eqb (trim (neighborhood f)) EmptyString)%bool then AlertAddress
  else if String.eqb (paymentMethod f) EmptyString then AlertPayment
  else if String.eqb (whatsapp f) EmptyString then AlertWhatsapp
  else SendOrder.

(** The menu's cart badge: [getTotalItems() > 0 && ...]. *)
Definition cart_badge_shown (w : World) : bool := 0 <? getTotalItems w.


Definition quantities_positive (l : list CartItem) : Prop :=
  Forall (fun i => 1 <= quantity i) l.

(* ------------------------------------------------------------------ *)
(** Concrete inputs. *)

(** The number a JavaScript numeric literal denotes. *)
Definition js_num (s : string) : double :=
  match parse_number (js s) with Some (x, _) => x | None => S754_nan end.

Definition web : Browser := mkBrowser true true true ∅.
Definition server : Browser := mkBrowser false true true ∅.
Definition empty_world : World := mkWorld [] web.
Definition pizza : NewItem := mkNewItem "p1" "Pizza" (js_num "29.9") None.
Definition pizza_renamed : NewItem := mkNewItem "p1" "Pizza grande" (js_num "39.9") None.
Definition soda : NewItem := mkNewItem "p2" "Soda" (js_num "5.5") (Some "soda.png").

Definition null_browser : Browser :=
  mkBrowser true true true (<[cart_key := js "null"]> ∅).


(* ================================================================== *)
(** * Numbers: printing and reading *)

Lemma pow_pos (r k : Z) : 2 <= r -> 0 <= k -> 0 < r ^ k.
Proof. intros. apply Z.pow_pos_nonneg; lia. Qed.

Lemma pow_split (r i j : Z) : 0 <= i -> 0 <= j -> r ^ (i + j) = r ^ i * r ^ j.
Proof. intros. apply Z.pow_add_r; lia. Qed.

Lemma pow_le_iff (r a b t J : Z) :
  2 <= r -> 0 <= J -> 0 <= J + t ->
  pow_le r a b t = true <-> b * r ^ (J + t) <= a * r ^ J.
Proof.
  intros Hr HJ HJt. unfold pow_le, scale.
  destruct (Z.leb_spec 0 (- t)) as [Ht|Ht].
  - rewrite Z.leb_le.
    replace (r ^ J) with (r ^ (J + t) * r ^ (- t))
      by (rewrite <- pow_split by lia; f_equal; lia).
    pose proof (pow_pos r (J + t) Hr HJt).
    rewrite (Z.mul_le_mono_pos_r b (a * r ^ (- t)) (r ^ (J + t))) by lia.
    split; intros; lia.
  - rewrite Z.leb_le. replace (- - t) with t by lia.
    replace (r ^ (J + t)) with (r ^ t * r ^ J) by (rewrite <- pow_split by lia; f_equal; lia).
    pose proof (pow_pos r J Hr HJ).
    rewrite (Z.mul_le_mono_pos_r (b * r ^ t) a (r ^ J)) by lia.
    split; intros; lia.
Qed.

Lemma ilog10_aux_spec (fuel : nat) (a : Z) :
  1 <= a -> a < 10 ^ Z.of_nat fuel ->
  10 ^ ilog10_aux fuel a <= a < 10 ^ (ilog10_aux fuel a + 1) /\ 0 <= ilog10_aux fuel a.
Proof.
  revert a. induction fuel as [|f IH]; intros a H1 H2.
  - simpl in H2. lia.
  - cbn [ilog10_aux]. destruct (Z.ltb_spec a 10).
    + rewrite Z.add_0_l, Z.pow_0_r, Z.pow_1_r. lia.
    + rewrite Nat2Z.inj_succ, Z.pow_succ_r in H2 by lia.
      destruct (IH (a / 10)) as [[A B] C].
      * apply Z.div_le_lower_bound; lia.
      * apply Z.div_lt_upper_bound; lia.
      * rewrite Z.pow_add_r, Z.pow_1_r in B by lia.
        rewrite <- Z.add_assoc, (Z.add_comm 1 (ilog10_aux f (a / 10) + 1)).
        rewrite (Z.add_comm 1 (ilog10_aux f (a / 10))).
        rewrite !Z.pow_add_r, !Z.pow_1_r by lia.
        split; [|lia]. split.
        -- pose proof (Z.mul_div_le a 10). lia.
        -- pose proof (Z.mul_succ_div_gt a 10). nia.
Qed.

Lemma pow2_le_pow10 (k : Z) : 0 <= k -> 2 ^ k <= 10 ^ k.
Proof. intros. apply Z.pow_le_mono_l. lia. Qed.

Lemma ilog10_spec (a : Z) :
  1 <= a -> 10 ^ ilog10 a <= a < 10 ^ (ilog10 a + 1) /\ 0 <= ilog10 a.
Proof.
  intros H. apply ilog10_aux_spec; [lia|].
  rewrite Nat2Z.inj_succ, Z2Nat.id by (apply Z.log2_nonneg).
  pose proof (Z.log2_spec a ltac:(lia)) as [_ B].
  pose proof (pow2_le_pow10 (Z.succ (Z.log2 a)) ltac:(pose proof (Z.log2_nonneg a); lia)). lia.
Qed.

Lemma log2_spec' (a : Z) : 1 <= a -> 2 ^ Z.log2 a <= a < 2 ^ (Z.log2 a + 1) /\ 0 <= Z.log2 a.
Proof.
  intros H. pose proof (Z.log2_spec a ltac:(lia)). pose proof (Z.log2_nonneg a).
  rewrite <- Z.add_1_r in H0. lia.
Qed.

(** [flog] is the floor of the logarithm. *)
Lemma flog_spec (r la lb a b : Z) :
  2 <= r -> 1 <= a -> 1 <= b ->
  r ^ la <= a < r ^ (la + 1) -> 0 <= la ->
  r ^ lb <= b < r ^ (lb + 1) -> 0 <= lb ->
  let t := flog r la lb a b in
  pow_le r a b t = true /\ pow_le r a b (t + 1) = false.
Proof.
  intros Hr Ha Hb [A1 A2] Hla [B1 B2] Hlb t.
  set (J := lb + 1).
  assert (Up : pow_le r a b (la - lb + 1) = false).
  { destruct (pow_le r a b (la - lb + 1)) eqn:E; [|reflexivity].
    apply (pow_le_iff r a b _ J) in E; [|lia|lia|lia]. exfalso.
    assert (X1 : r ^ lb * r ^ (J + (la - lb + 1)) = r ^ (J + la + 1))
      by (rewrite <- pow_split by lia; f_equal; lia).
    assert (X2 : r ^ (la + 1) * r ^ J = r ^ (J + la + 1))
      by (rewrite <- pow_split by lia; f_equal; lia).
    pose proof (pow_pos r J Hr ltac:(lia)).
    pose proof (pow_pos r (J + (la - lb + 1)) Hr ltac:(lia)).
    assert (Y1 : r ^ lb * r ^ (J + (la - lb + 1)) <= b * r ^ (J + (la - lb + 1)))
      by (apply Z.mul_le_mono_nonneg_r; lia).
    assert (Y2 : a * r ^ J < r ^ (la + 1) * r ^ J)
      by (apply Z.mul_lt_mono_pos_r; lia).
    lia. }
  assert (Lo : pow_le r a b (la - lb - 1) = true).
  { apply (pow_le_iff r a b _ J); [lia|lia|lia|].
    replace (J + (la - lb - 1)) with la by lia.
    assert (X1 : r ^ (lb + 1) * r ^ la = r ^ la * r ^ J) by (unfold J; lia).
    pose proof (pow_pos r la Hr Hla). pose proof (pow_pos r J Hr ltac:(lia)).
    assert (Y1 : b * r ^ la <= r ^ (lb + 1) * r ^ la)
      by (apply Z.mul_le_mono_nonneg_r; lia).
    assert (Y2 : r ^ la * r ^ J <= a * r ^ J)
      by (apply Z.mul_le_mono_nonneg_r; lia).
    lia. }
  unfold t, flog. destruct (pow_le r a b (la - lb)) eqn:E.
  - split; [exact E | replace (la - lb + 1) with (la - lb + 1) by lia; exact Up].
  - split; [exact Lo | replace (la - lb - 1 + 1) with (la - lb) by lia; exact E].
Qed.

Lemma pow_le_anti (r a b t t' : Z) :
  2 <= r -> 1 <= b -> t <= t' -> pow_le r a b t' = true -> pow_le r a b t = true.
Proof.
  intros Hr Hb Htt H.
  set (J := Z.abs t + Z.abs t').
  apply (pow_le_iff r a b t' J) in H; [|lia|lia|lia].
  apply (pow_le_iff r a b t J); [lia|lia|lia|].
  assert (r ^ (J + t) <= r ^ (J + t')) by (apply Z.pow_le_mono_r; lia). nia.
Qed.

Lemma flog_unique (r la lb a b t : Z) :
  2 <= r -> 1 <= a -> 1 <= b ->
  r ^ la <= a < r ^ (la + 1) -> 0 <= la ->
  r ^ lb <= b < r ^ (lb + 1) -> 0 <= lb ->
  pow_le r a b t = true -> pow_le r a b (t + 1) = false ->
  flog r la lb a b = t.
Proof.
  intros Hr Ha Hb HA Hla HB Hlb H1 H2.
  destruct (flog_spec r la lb a b Hr Ha Hb HA Hla HB Hlb) as [F1 F2].
  set (u := flog r la lb a b) in *.
  destruct (Z.lt_trichotomy u t) as [L|[E|L]]; [|exact E|].
  - exfalso. assert (pow_le r a b (u + 1) = true) by (apply (pow_le_anti r a b _ t); [lia|lia|lia|exact H1]).
    congruence.
  - exfalso. assert (pow_le r a b (t + 1) = true) by (apply (pow_le_anti r a b _ u); [lia|lia|lia|exact F1]).
    congruence.
Qed.

(** [scale] multiplies by [r^j]: cross-multiplied form. *)
Lemma scale_sem (r a b j J : Z) :
  2 <= r -> 0 <= J -> 0 <= J + j ->
  fst (scale r a b j) * b * r ^ J = a * snd (scale r a b j) * r ^ (J + j).
Proof.
  intros Hr HJ HJj. unfold scale. destruct (Z.leb_spec 0 j); simpl.
  - rewrite (Z.pow_add_r r J j) by lia. ring.
  - replace (r ^ J) with (r ^ (- j) * r ^ (J + j))
      by (rewrite <- Z.pow_add_r by lia; f_equal; lia). ring.
Qed.

Lemma scale_den_pos (r a b j : Z) : 2 <= r -> 1 <= b -> 1 <= snd (scale r a b j).
Proof.
  intros. unfold scale. destruct (Z.leb_spec 0 j); simpl; [lia|].
  pose proof (pow_pos r (- j) H ltac:(lia)). nia.
Qed.

Lemma digits2_pos_size (p : positive) : digits2_pos p = Pos.size p.
Proof. induction p; simpl; congruence. Qed.

Lemma digits2_log2 (p : positive) : Zpos (digits2_pos p) = Z.log2 (Zpos p) + 1.
Proof.
  induction p as [p IH|p IH|]; [| |reflexivity]; cbn [digits2_pos]; rewrite Pos2Z.inj_succ, IH.
  - change (Zpos p~1) with (2 * Zpos p + 1). rewrite Z.log2_succ_double by lia. lia.
  - change (Zpos p~0) with (2 * Zpos p). rewrite Z.log2_double by lia. lia.
Qed.

Lemma round_pos_exact (neg : bool) (a b : Z) (M : positive) (E : Z) :
  1 <= a -> 1 <= b ->
  valid_binary 53 1024 (S754_finite neg M E) = true ->
  fst (scale 2 a b (- E)) = snd (scale 2 a b (- E)) * Zpos M ->
  round_pos neg a b = S754_finite neg M E.
Proof.
  intros Ha Hb Hv Hr.
  unfold valid_binary, bounded, canonical_mantissa, fexp, emin in Hv.
  apply andb_prop in Hv as [Hc Hbd]. apply Z.eqb_eq in Hc. apply Z.leb_le in Hbd.
  rewrite digits2_log2 in Hc.
  set (L := Z.log2 (Zpos M)) in *.
  destruct (log2_spec' (Zpos M) ltac:(lia)) as [[M1 M2] L0]. fold L in M1, M2, L0.
  (* the relation a/b = M * 2^E, cross-multiplied *)
  set (J := Z.abs E).
  pose proof (scale_sem 2 a b (- E) J ltac:(lia) ltac:(lia) ltac:(lia)) as S.
  rewrite Hr in S.
  pose proof (scale_den_pos 2 a b (- E) ltac:(lia) Hb) as D.
  set (d := snd (scale 2 a b (- E))) in *.
  assert (R : Zpos M * b * 2 ^ J = a * 2 ^ (J + - E)).
  { apply (Z.mul_reg_l _ _ d); [lia|].
    transitivity (d * Zpos M * b * 2 ^ J); [ring|]. rewrite S. ring. }
  assert (Hf : flog2 a b = L + E).
  { unfold flog2.
    destruct (log2_spec' a Ha) as [A1 A2]. destruct (log2_spec' b Hb) as [B1 B2].
    apply flog_unique; try lia.
    - apply (pow_le_iff 2 a b _ (J + - E)); [lia|lia|lia|].
      replace (J + - E + (L + E)) with (L + J) by lia.
      rewrite Z.pow_add_r by lia. rewrite <- R.
      pose proof (pow_pos 2 J ltac:(lia) ltac:(lia)). nia.
    - destruct (pow_le 2 a b (L + E + 1)) eqn:Q; [|reflexivity]. exfalso.
      apply (pow_le_iff 2 a b _ (J + - E)) in Q; [|lia|lia|lia].
      replace (J + - E + (L + E + 1)) with ((L + 1) + J) in Q by lia.
      rewrite Z.pow_add_r in Q by lia. rewrite <- R in Q.
      pose proof (pow_pos 2 J ltac:(lia) ltac:(lia)). nia. }
  assert (He : Z.max (flog2 a b - 52) (-1074) = E) by (rewrite Hf; lia).
  unfold round_pos. rewrite He.
  destruct (scale 2 a b (- E)) as [num den] eqn:Es. simpl in Hr, d. subst d.
  replace (num / den) with (Zpos M) by (rewrite Hr, Z.mul_comm, Z.div_mul; lia).
  replace (num mod den) with 0 by (rewrite Hr, Z.mul_comm, Z.mod_mul; lia).
  destruct (den <? 2 * 0) eqn:X1; [apply Z.ltb_lt in X1; lia|].
  destruct (2 * 0 =? den) eqn:X2; [apply Z.eqb_eq in X2; lia|]. cbn [orb andb].
  assert (LM : L <= 52) by lia.
  assert (M53 : Zpos M < 2 ^ 53).
  { apply (Z.lt_le_trans _ (2 ^ (L + 1))); [lia|]. apply Z.pow_le_mono_r; lia. }
  destruct (Zpos M =? 2 ^ 53) eqn:X3; [apply Z.eqb_eq in X3; lia|].
  destruct (Zpos M =? 0) eqn:X4; [apply Z.eqb_eq in X4; lia|].
  destruct (971 <? E) eqn:X5; [apply Z.ltb_lt in X5; lia|].
  reflexivity.
Qed.

Lemma round_pos_sign (neg : bool) (a b : Z) :
  round_pos neg a b = with_sign neg (round_pos false a b).
Proof.
  unfold round_pos. destruct (scale 2 a b _) as [num den].
  repeat match goal with |- context [if ?c then _ else _] => destruct c end; reflexivity.
Qed.

Lemma double_eqb_eq (x y : double) : double_eqb x y = true <-> x = y.
Proof.
  split.
  - destruct x, y; simpl; intros H; try discriminate;
      repeat match goal with
             | H : _ && _ = true |- _ => apply andb_prop in H as [? ?]
             | H : Bool.eqb _ _ = true |- _ => apply Bool.eqb_prop in H
             | H : Pos.eqb _ _ = true |- _ => apply Pos.eqb_eq in H
             | H : Z.eqb _ _ = true |- _ => apply Z.eqb_eq in H
             end; subst; reflexivity.
  - intros ->. destruct y; simpl; rewrite ?eqb_reflx, ?Pos.eqb_refl, ?Z.eqb_refl; reflexivity.
Qed.

Lemma dval_acc (l : list Z) (acc : Z) :
  fold_left (fun acc d => acc * 10 + d) l acc = acc * 10 ^ Z.of_nat (length l) + dval l.
Proof.
  unfold dval. revert acc. induction l as [|d l IH]; intros acc; cbn [fold_left length].
  - simpl. lia.
  - rewrite (IH (acc * 10 + d)), (IH (0 * 10 + d)).
    rewrite Nat2Z.inj_succ, Z.pow_succ_r by lia. ring.
Qed.

Lemma dval_app (l1 l2 : list Z) :
  dval (l1 ++ l2) = dval l1 * 10 ^ Z.of_nat (length l2) + dval l2.
Proof. unfold dval at 1. rewrite fold_left_app. apply dval_acc. Qed.

Lemma dval_cons (d : Z) (l : list Z) :
  dval (d :: l) = d * 10 ^ Z.of_nat (length l) + dval l.
Proof. apply (dval_app [d] l). Qed.

Lemma dval_bound (l : list Z) :
  Forall is_dig l -> 0 <= dval l < 10 ^ Z.of_nat (length l).
Proof.
  induction l as [|d l IH]; intros H; [unfold dval; simpl; lia|].
  inversion H as [|? ? Hd Hl]; subst. rewrite dval_cons. specialize (IH Hl).
  unfold is_dig in Hd. cbn [length]. rewrite Nat2Z.inj_succ, Z.pow_succ_r by lia.
  remember (10 ^ Z.of_nat (length l)) as P. nia.
Qed.

Lemma dval_repeat0 (n : nat) (l : list Z) : dval (repeat 0 n ++ l) = dval l.
Proof. induction n; [reflexivity|]. simpl. rewrite dval_cons. simpl. lia. Qed.

Lemma digits_n_length (k : nat) (s : Z) : length (digits_n k s) = k.
Proof. revert s. induction k; intros s; simpl; [reflexivity|]. rewrite length_app, IHk. simpl. lia. Qed.

Lemma digits_n_digs (k : nat) (s : Z) : Forall is_dig (digits_n k s).
Proof.
  revert s. induction k; intros s; simpl; [constructor|].
  apply List.Forall_app. split; [apply IHk|]. constructor; [|constructor].
  unfold is_dig. pose proof (Z.mod_pos_bound s 10). lia.
Qed.

Lemma mod_mul_r' (a b c : Z) : 0 < b -> 0 < c -> a mod (b * c) = a mod b + b * ((a / b) mod c).
Proof.
  intros Hb Hc. rewrite !Z.mod_eq by lia. rewrite <- Z.div_div by lia. ring.
Qed.

Lemma digits_n_val (k : nat) (s : Z) : 0 <= s -> dval (digits_n k s) = s mod 10 ^ Z.of_nat k.
Proof.
  revert s. induction k; intros s Hs; cbn [digits_n].
  - rewrite Z.mod_1_r. reflexivity.
  - rewrite dval_app, IHk by (apply Z.div_pos; lia).
    rewrite Nat2Z.inj_succ, Z.pow_succ_r by lia.
    pose proof (pow_pos 10 (Z.of_nat k) ltac:(lia) ltac:(lia)).
    rewrite mod_mul_r' by lia.
    cbn [length]. change (dval [s mod 10]) with (0 * 10 + s mod 10). rewrite Z.pow_1_r. ring.
Qed.

Lemma digits_n_exact (k : nat) (s : Z) :
  0 <= s < 10 ^ Z.of_nat k -> dval (digits_n k s) = s.
Proof. intros H. rewrite digits_n_val by lia. apply Z.mod_small. lia. Qed.

(** The first digit of [s] with [10^(k-1) <= s < 10^k] is not zero. *)
Lemma digits_n_head (k : nat) (s : Z) :
  (1 <= k)%nat -> 10 ^ (Z.of_nat k - 1) <= s < 10 ^ Z.of_nat k ->
  exists d r, digits_n k s = d :: r /\ 1 <= d <= 9 /\ Forall is_dig r
              /\ length r = (k - 1)%nat.
Proof.
  intros Hk Hs. pose proof (digits_n_digs k s) as D. pose proof (digits_n_length k s) as L.
  pose proof (digits_n_exact k s ltac:(split; [pose proof (pow_pos 10 (Z.of_nat k - 1) ltac:(lia) ltac:(lia)); lia | lia])) as V.
  destruct (digits_n k s) as [|d r] eqn:E; [simpl in L; lia|].
  apply Forall_cons_iff in D as [Hd Hr]. exists d, r. simpl in L.
  split; [reflexivity|]. split; [|split; [exact Hr | lia]].
  unfold is_dig in Hd. split; [|lia].
  destruct (Z.eq_dec d 0) as [->|]; [|lia]. exfalso.
  rewrite dval_cons in V. pose proof (dval_bound r Hr). rewrite <- L in Hs.
  replace (Z.of_nat (S (length r)) - 1) with (Z.of_nat (length r)) in Hs by lia. lia.
Qed.

Lemma flog10_spec (a b : Z) : 1 <= a -> 1 <= b ->
  pow_le 10 a b (flog10 a b) = true /\ pow_le 10 a b (flog10 a b + 1) = false.
Proof.
  intros Ha Hb. pose proof (ilog10_spec a Ha) as [A1 A2]. pose proof (ilog10_spec b Hb) as [B1 B2].
  apply flog_spec; lia.
Qed.

Lemma pick_bounds (a b n0 k : Z) :
  1 <= a -> 1 <= b -> 1 <= k ->
  pow_le 10 a b (n0 - 1) = true -> pow_le 10 a b n0 = false ->
  10 ^ (k - 1) * snd (scale 10 a b (k - n0)) <= fst (scale 10 a b (k - n0)) <
  10 ^ k * snd (scale 10 a b (k - n0)).
Proof.
  intros Ha Hb Hk Lo Up.
  set (J := Z.abs (k - n0) + Z.abs n0 + Z.abs k).
  pose proof (scale_sem 10 a b (k - n0) J ltac:(lia) ltac:(lia) ltac:(lia)) as S.
  set (c := fst (scale 10 a b (k - n0))) in *. set (d := snd (scale 10 a b (k - n0))) in *.
  pose proof (scale_den_pos 10 a b (k - n0) ltac:(lia) Hb) as Hd. fold d in Hd.
  apply (pow_le_iff 10 a b _ (J + (k - n0))) in Lo; [|lia|lia|lia].
  assert (Up' : ~ (b * 10 ^ (J + (k - n0) + n0) <= a * 10 ^ (J + (k - n0)))).
  { rewrite <- (pow_le_iff 10 a b n0 (J + (k - n0))) by lia. congruence. }
  clear Up. rename Up' into Up. apply Z.nle_gt in Up.
  pose proof (pow_pos 10 J ltac:(lia) ltac:(lia)) as PJ.
  pose proof (pow_pos 10 (k - 1) ltac:(lia) ltac:(lia)) as Pk1.
  pose proof (pow_pos 10 (J + (k - n0)) ltac:(lia) ltac:(lia)) as PJk.
  assert (E1 : 10 ^ (J + (k - n0) + (n0 - 1)) = 10 ^ (k - 1) * 10 ^ J)
    by (rewrite <- pow_split by lia; f_equal; lia).
  assert (E2 : 10 ^ (J + (k - n0) + n0) = 10 ^ k * 10 ^ J)
    by (rewrite <- pow_split by lia; f_equal; lia).
  rewrite E1 in Lo. rewrite E2 in Up.
  split.
  - apply (Z.mul_le_mono_pos_r _ _ (b * 10 ^ J)); [nia|].
    assert (T : b * (10 ^ (k - 1) * 10 ^ J) * d <= a * 10 ^ (J + (k - n0)) * d)
      by (apply Z.mul_le_mono_nonneg_r; lia).
    nia.
  - apply (Z.mul_lt_mono_pos_r (b * 10 ^ J)); [nia|].
    assert (T : a * 10 ^ (J + (k - n0)) * d < b * (10 ^ k * 10 ^ J) * d)
      by (apply Z.mul_lt_mono_pos_r; lia).
    nia.
Qed.

Lemma pick_spec (x : double) (a b n0 k s n : Z) :
  1 <= a -> 1 <= b -> 1 <= k ->
  pow_le 10 a b (n0 - 1) = true -> pow_le 10 a b n0 = false ->
  pick x a b n0 k = Some (s, n) ->
  round_dec false s (n - k) = x /\ 10 ^ (k - 1) <= s < 10 ^ k.
Proof.
  intros Ha Hb Hk Lo Up H.
  pose proof (pick_bounds a b n0 k Ha Hb Hk Lo Up) as [B1 B2].
  pose proof (scale_den_pos 10 a b (k - n0) ltac:(lia) Hb) as Hd.
  unfold pick in H. destruct (scale 10 a b (k - n0)) as [c d]. simpl in B1, B2, Hd.
  assert (S1 : 10 ^ (k - 1) <= c / d < 10 ^ k).
  { split; [apply Z.div_le_lower_bound; lia | apply Z.div_lt_upper_bound; lia]. }
  assert (P : 10 ^ (k - 1) < 10 ^ k) by (apply Z.pow_lt_mono_r; lia).
  destruct (c / d + 1 <? 10 ^ k) eqn:E.
  - apply Z.ltb_lt in E.
    repeat match goal with
           | H : (if ?c then _ else _) = _ |- _ => destruct c eqn:?
           | H : (match ?c with _ => _ end) = _ |- _ => destruct c eqn:?
           end;
      try discriminate H;
      injection H as <- <-;
      repeat match goal with
             | H : _ && _ = true |- _ => apply andb_prop in H as [? ?]
             end;
      match goal with
      | H : double_eqb (round_dec false ?s' _) x = true |- round_dec false ?s' _ = x /\ _ =>
          apply double_eqb_eq in H; split; [exact H | lia]
      | _ => idtac
      end.
  - apply Z.ltb_ge in E.
    repeat match goal with
           | H : (if ?c then _ else _) = _ |- _ => destruct c eqn:?
           | H : (match ?c with _ => _ end) = _ |- _ => destruct c eqn:?
           end;
      try discriminate H;
      injection H as <- <-;
      repeat match goal with
             | H : _ && _ = true |- _ => apply andb_prop in H as [? ?]
             end;
      match goal with
      | H : double_eqb (round_dec false ?s' _) x = true |- round_dec false ?s' _ = x /\ _ =>
          apply double_eqb_eq in H; split; [exact H | lia]
      | _ => idtac
      end.
Qed.

Lemma search_spec (x : double) (a b n0 : Z) (fuel : nat) (k0 s k n : Z) :
  search x a b n0 fuel k0 = Some (s, k, n) -> k0 <= k /\ pick x a b n0 k = Some (s, n).
Proof.
  revert k0. induction fuel as [|f IH]; intros k0 H; simpl in H; [discriminate|].
  destruct (pick x a b n0 k0) as [[s' n']|] eqn:P.
  - injection H as <- <- <-. split; [lia | exact P].
  - apply IH in H as [H1 H2]. split; [lia | exact H2].
Qed.

Lemma search_complete (x : double) (a b n0 : Z) (fuel : nat) (k0 j : Z) :
  k0 <= j < k0 + Z.of_nat fuel -> pick x a b n0 j <> None -> search x a b n0 fuel k0 <> None.
Proof.
  revert k0. induction fuel as [|f IH]; intros k0 Hj Hp; simpl; [lia|].
  destruct (pick x a b n0 k0) as [[s' n']|] eqn:P; [discriminate|].
  destruct (Z.eq_dec j k0) as [->|Hne]; [contradiction|].
  apply IH; [lia | exact Hp].
Qed.

Lemma pick_some (x : double) (a b n0 k : Z) :
  double_eqb (round_dec false (fst (scale 10 a b (k - n0)) / snd (scale 10 a b (k - n0))) (n0 - k)) x = true ->
  pick x a b n0 k <> None.
Proof.
  unfold pick. destruct (scale 10 a b (k - n0)) as [c d]. simpl. intros H.
  destruct (if c / d + 1 <? 10 ^ k then _ else _) as [s2 n2].
  rewrite H. cbn [andb].
  clear H. destruct (double_eqb (round_dec false s2 _) x); [|intros; discriminate].
  destruct (Z.compare _ _); [destruct (Z.even _)| |]; intros; discriminate.
Qed.

Lemma scale_pos (r a b j : Z) : 2 <= r -> 1 <= a -> 1 <= b ->
  1 <= fst (scale r a b j) /\ 1 <= snd (scale r a b j).
Proof.
  intros. unfold scale. destruct (Z.leb_spec 0 j); simpl.
  - pose proof (pow_pos r j H ltac:(lia)). nia.
  - pose proof (pow_pos r (- j) H ltac:(lia)). nia.
Qed.

Lemma shortest_spec (m : positive) (e s k n : Z) :
  shortest m e = Some (s, k, n) ->
  round_dec false s (n - k) = S754_finite false m e /\ 1 <= k /\ 10 ^ (k - 1) <= s < 10 ^ k.
Proof.
  unfold shortest. pose proof (scale_pos 2 (Zpos m) 1 e ltac:(lia) ltac:(lia) ltac:(lia)) as [Ha Hb].
  destruct (scale 2 (Zpos m) 1 e) as [a b]. simpl in Ha, Hb. intros H.
  apply search_spec in H as [Hk P].
  pose proof (flog10_spec a b Ha Hb) as [F1 F2].
  apply pick_spec in P as [R B]; [| lia | lia | lia | | ].
  - split; [exact R | split; [lia | exact B]].
  - replace (flog10 a b + 1 - 1) with (flog10 a b) by lia. exact F1.
  - exact F2.
Qed.

Lemma scale_nonneg (r a b j : Z) : 0 <= j -> scale r a b j = (a * r ^ j, b).
Proof. intros. unfold scale. destruct (Z.leb_spec 0 j); [reflexivity | lia]. Qed.

Lemma scale_neg (r a b j : Z) : j < 0 -> scale r a b j = (a, b * r ^ (- j)).
Proof. intros. unfold scale. destruct (Z.leb_spec 0 j); [lia | reflexivity]. Qed.

Lemma shortest_some (m : positive) (e : Z) :
  valid_binary 53 1024 (S754_finite false m e) = true -> shortest m e <> None.
Proof.
  intros V. pose proof (Pos2Z.is_pos m) as Hm.
  assert (Gen : forall a b, scale 2 (Zpos m) 1 e = (a, b) -> 1 <= a -> 1 <= b ->
     pow_le 10 a b (Z.min 0 e) = true ->
     round_dec false (fst (scale 10 a b (Z.max 0 (- e))) / snd (scale 10 a b (Z.max 0 (- e))))
               (- Z.max 0 (- e)) = S754_finite false m e ->
     shortest m e <> None).
  { intros a b Hs Ha Hb Low Ex. unfold shortest. rewrite Hs.
    pose proof (flog10_spec a b Ha Hb) as [F1 F2].
    assert (Hn : Z.min 0 e <= flog10 a b).
    { destruct (Z.le_gt_cases (Z.min 0 e) (flog10 a b)) as [|G]; [assumption|].
      rewrite (pow_le_anti 10 a b (flog10 a b + 1) (Z.min 0 e)) in F2; [discriminate|lia|lia|lia|exact Low]. }
    apply (search_complete _ _ _ _ _ 1 (flog10 a b + 1 + Z.max 0 (- e))).
    - rewrite Z2Nat.id by lia. lia.
    - apply pick_some. apply double_eqb_eq.
      replace (flog10 a b + 1 + Z.max 0 (- e) - (flog10 a b + 1)) with (Z.max 0 (- e)) by lia.
      replace (flog10 a b + 1 - (flog10 a b + 1 + Z.max 0 (- e))) with (- Z.max 0 (- e)) by lia.
      exact Ex. }
  destruct (Z.leb_spec 0 e) as [He|He].
  - pose proof (pow_pos 2 e ltac:(lia) He). pose proof (pow_pos 10 e ltac:(lia) He).
    apply (Gen (Zpos m * 2 ^ e) 1); [apply scale_nonneg; lia | nia | lia | |].
    + rewrite (pow_le_iff 10 _ _ _ e) by lia. rewrite Z.min_l, Z.add_0_r by lia.
      assert (1 <= Z.pos m * 2 ^ e) by nia. apply Z.mul_le_mono_nonneg_r; lia.
    + rewrite Z.max_l by lia. rewrite scale_nonneg by lia. cbn [fst snd].
      rewrite Z.pow_0_r, Z.mul_1_r, Z.div_1_r.
      unfold round_dec. destruct (Z.eqb_spec (Zpos m * 2 ^ e) 0); [nia|].
      rewrite scale_nonneg by lia. cbn [fst snd]. rewrite Z.pow_0_r, Z.mul_1_r.
      apply round_pos_exact; [nia | lia | exact V |].
      destruct (Z.eq_dec e 0) as [->|].
      * rewrite scale_nonneg by lia. cbn [fst snd]. simpl. lia.
      * rewrite scale_neg by lia. cbn [fst snd]. rewrite Z.opp_involutive. ring.
  - pose proof (pow_pos 2 (- e) ltac:(lia) ltac:(lia)).
    pose proof (pow_pos 5 (- e) ltac:(lia) ltac:(lia)).
    pose proof (pow_pos 10 (- e) ltac:(lia) ltac:(lia)).
    assert (T : 10 ^ (- e) = 2 ^ (- e) * 5 ^ (- e))
      by (rewrite <- Z.pow_mul_l; reflexivity).
    apply (Gen (Zpos m) (1 * 2 ^ (- e))); [apply scale_neg; lia | lia | lia | |].
    + rewrite (pow_le_iff 10 _ _ _ (- e)) by lia. rewrite Z.min_r by lia.
      replace (- e + e) with 0 by lia. rewrite Z.pow_0_r.
      assert (2 ^ (- e) <= 10 ^ (- e)) by (apply pow2_le_pow10; lia). nia.
    + rewrite Z.max_r by lia. rewrite scale_nonneg by lia. cbn [fst snd].
      replace (Zpos m * 10 ^ (- e) / (1 * 2 ^ (- e))) with (Zpos m * 5 ^ (- e))
        by (rewrite T, Z.mul_1_l, (Z.mul_comm (2 ^ (- e))), Z.mul_assoc, Z.div_mul; lia).
      unfold round_dec. destruct (Z.eqb_spec (Zpos m * 5 ^ (- e)) 0); [nia|].
      rewrite Z.opp_involutive. rewrite scale_neg by lia. cbn [fst snd].
      apply round_pos_exact; [nia | nia | exact V |].
      rewrite scale_nonneg by lia. cbn [fst snd]. rewrite T. ring.
Qed.

Lemma take_digits_map (l t : list Z) :
  Forall is_dig l -> stop t -> take_digits (map digit_char l ++ t) = (l, t).
Proof.
  intros Hl Ht.
  assert (T : take_digits t = ([], t)).
  { destruct t as [|c t']; [reflexivity|]. simpl in Ht |- *. rewrite Ht. reflexivity. }
  induction Hl as [|d l Hd Hl IH]; cbn [map app take_digits].
  - exact T.
  - unfold is_dig in Hd. unfold digit_char at 1.
    replace (is_digit_unit (48 + d)) with true
      by (symmetry; unfold is_digit_unit; apply andb_true_intro; split; apply Z.leb_le; lia).
    rewrite IH. unfold digit_char. f_equal. f_equal. lia.
Qed.

Lemma parse_int_lead (d : Z) (r t : list Z) :
  1 <= d <= 9 -> Forall is_dig r -> stop t ->
  parse_int_part (digit_char d :: map digit_char r ++ t) = Some (d :: r, t).
Proof.
  intros Hd Hr Ht. unfold parse_int_part. simpl map. cbn [app].
  assert (E1 : (digit_char d =? 48) = false) by (unfold digit_char; apply Z.eqb_neq; lia).
  assert (E2 : is_digit_unit (digit_char d) = true)
    by (unfold is_digit_unit, digit_char; apply andb_true_intro; split; apply Z.leb_le; lia).
  rewrite E1, E2. f_equal. change (digit_char d :: map digit_char r ++ t) with (map digit_char (d :: r) ++ t).
  apply take_digits_map; [constructor; unfold is_dig; [lia | exact Hr] | exact Ht].
Qed.

Lemma parse_frac_none (t : list Z) :
  match t with c :: _ => c <> 46 | [] => True end -> parse_frac t = Some ([], t).
Proof.
  destruct t as [|c t]; intros H; [reflexivity|]. simpl.
  replace (c =? 46) with false by (symmetry; apply Z.eqb_neq; exact H). reflexivity.
Qed.

Lemma parse_frac_some (l t : list Z) :
  l <> [] -> Forall is_dig l -> stop t -> parse_frac (46 :: map digit_char l ++ t) = Some (l, t).
Proof.
  intros Hn Hl Ht. simpl. rewrite take_digits_map by assumption.
  destruct l; [contradiction | reflexivity].
Qed.

Lemma parse_exp_none (t : list Z) :
  match t with c :: _ => c <> 101 /\ c <> 69 | [] => True end -> parse_exp t = Some (0, t).
Proof.
  destruct t as [|c t]; intros H; [reflexivity|]. simpl.
  replace (c =? 101) with false by (symmetry; apply Z.eqb_neq; tauto).
  replace (c =? 69) with false by (symmetry; apply Z.eqb_neq; tauto). reflexivity.
Qed.

Lemma int_text_digits (z : Z) :
  0 <= z -> exists l, int_text z = map digit_char l /\ l <> [] /\ Forall is_dig l /\ dval l = z.
Proof.
  intros Hz. unfold int_text. destruct (Z.eqb_spec z 0) as [->|Hne].
  - exists [0]. split; [reflexivity|]. split; [discriminate|].
    split; [constructor; [unfold is_dig; lia | constructor] | reflexivity].
  - exists (digits_n (S (Z.to_nat (ilog10 z))) z). split; [reflexivity|].
    split; [simpl; destruct (digits_n _ _); discriminate|].
    split; [apply digits_n_digs|].
    pose proof (ilog10_spec z ltac:(lia)) as [B1 B2].
    apply digits_n_exact. rewrite Nat2Z.inj_succ, Z2Nat.id by lia. rewrite <- Z.add_1_r. lia.
Qed.

Lemma parse_exp_text (x : Z) (t : list Z) :
  stop t -> parse_exp (exp_text x ++ t) = Some (x, t).
Proof.
  intros Ht. unfold exp_text. cbn [app]. unfold parse_exp. cbn [Z.eqb orb].
  pose proof (int_text_digits (Z.abs x) ltac:(lia)) as [l [E [Hn [Hl V]]]]. rewrite E.
  destruct (Z.leb_spec 0 x); cbn [Z.eqb Pos.eqb orb];
    rewrite take_digits_map by assumption; destruct l as [|d l]; try contradiction;
    rewrite V; f_equal; f_equal; lia.
Qed.

Lemma map_repeat0 (j : nat) : map digit_char (repeat 0 j) = repeat 48 j.
Proof. induction j; simpl; [reflexivity | rewrite IHj; reflexivity]. Qed.

Lemma dval_zeros (j : nat) : dval (repeat 0 j) = 0.
Proof. rewrite <- (app_nil_r (repeat 0 j)), dval_repeat0. reflexivity. Qed.

Lemma Forall_firstn_skipn {A} (P : A -> Prop) (j : nat) (l : list A) :
  Forall P l -> Forall P (firstn j l) /\ Forall P (skipn j l).
Proof. intros H. rewrite <- (firstn_skipn j l) in H. apply List.Forall_app in H. exact H. Qed.

Lemma round_dec_shift (neg : bool) (s j : Z) :
  1 <= s -> 0 <= j -> round_dec neg (s * 10 ^ j) 0 = round_dec neg s j.
Proof.
  intros Hs Hj. pose proof (pow_pos 10 j ltac:(lia) Hj). unfold round_dec.
  destruct (Z.eqb_spec (s * 10 ^ j) 0); [nia|]. destruct (Z.eqb_spec s 0); [lia|].
  rewrite !scale_nonneg by lia. cbn [fst snd]. rewrite Z.pow_0_r, Z.mul_1_r. reflexivity.
Qed.

Lemma stop_exp (x : Z) (t : list Z) : stop (exp_text x ++ t).
Proof. reflexivity. Qed.

Lemma parse_unsigned_format (neg : bool) (s k n : Z) (t : list Z) :
  1 <= k -> 10 ^ (k - 1) <= s < 10 ^ k -> num_end t ->
  parse_unsigned neg (format s k n ++ t) = Some (round_dec neg s (n - k), t).
Proof.
  intros Hk Hs Ht.
  pose proof (digits_n_head (Z.to_nat k) s ltac:(lia) ltac:(rewrite Z2Nat.id by lia; exact Hs))
    as [d [r [E [Hd [Hr Lr]]]]].
  pose proof (pow_pos 10 (k - 1) ltac:(lia) ltac:(lia)).
  assert (V : dval (d :: r) = s)
    by (rewrite <- E; apply digits_n_exact; rewrite Z2Nat.id by lia; lia).
  assert (St : stop t) by (destruct t; simpl in *; tauto).
  assert (Hnf : match t with c :: _ => c <> 46 | [] => True end) by (destruct t; simpl in *; tauto).
  assert (Hne : match t with c :: _ => c <> 101 /\ c <> 69 | [] => True end)
    by (destruct t; simpl in *; tauto).
  assert (Hd' : Forall is_dig (d :: r)) by (constructor; [unfold is_dig; lia | exact Hr]).
  unfold format. rewrite E. unfold parse_unsigned.
  destruct ((k <=? n) && (n <=? 21)) eqn:C1; [|destruct ((0 <? n) && (n <=? 21)) eqn:C2;
    [|destruct ((-6 <? n) && (n <=? 0)) eqn:C3; [|destruct (Z.eqb_spec k 1) as [K1|K1]]]].
  - apply andb_prop in C1 as [C1 _]. apply Z.leb_le in C1.
    replace ((map digit_char (d :: r) ++ repeat 48 (Z.to_nat (n - k))) ++ t)
      with (digit_char d :: map digit_char (r ++ repeat 0 (Z.to_nat (n - k))) ++ t)
      by (rewrite map_app, map_repeat0; reflexivity).
    rewrite parse_int_lead by first
      [ lia | assumption
      | apply List.Forall_app; split; [assumption|];
        apply List.Forall_forall; intros y Hy; apply repeat_spec in Hy; unfold is_dig; lia ].
    rewrite parse_frac_none, parse_exp_none by assumption.
    rewrite app_nil_r, app_comm_cons, dval_app, V, repeat_length, dval_zeros, Z2Nat.id by lia.
    rewrite Z.add_0_r. simpl (0 - Z.of_nat (length [])). apply (f_equal (fun x => Some (x, t))).
    apply round_dec_shift; lia.
  - apply andb_prop in C2 as [C2 C2']. apply Z.ltb_lt in C2. apply Z.leb_le in C2'.
    assert (C1' : n < k) by (apply andb_false_iff in C1 as [C1|C1];
                             [apply Z.leb_gt in C1; lia | apply Z.leb_gt in C1; lia]).
    destruct (Z.to_nat n) as [|n'] eqn:N; [lia|].
    rewrite firstn_map, skipn_map. cbn [firstn skipn].
    pose proof (Forall_firstn_skipn is_dig n' r Hr) as [F1 F2].
    replace ((map digit_char (d :: firstn n' r) ++ 46 :: map digit_char (skipn n' r)) ++ t)
      with (digit_char d :: map digit_char (firstn n' r) ++ (46 :: map digit_char (skipn n' r) ++ t))
      by (rewrite <- app_assoc; reflexivity).
    rewrite parse_int_lead by first [lia | assumption | reflexivity].
    assert (NE : skipn n' r <> []).
    { intros Z0. apply (f_equal (@length Z)) in Z0. rewrite length_skipn in Z0. simpl in Z0. lia. }
    rewrite parse_frac_some, parse_exp_none by assumption.
    rewrite <- app_comm_cons, firstn_skipn, V, length_skipn, Lr.
    apply (f_equal (fun x => Some (x, t))). f_equal. lia.
  - apply andb_prop in C3 as [C3 C3']. apply Z.ltb_lt in C3. apply Z.leb_le in C3'.
    replace ((48 :: 46 :: repeat 48 (Z.to_nat (- n)) ++ map digit_char (d :: r)) ++ t)
      with (48 :: 46 :: map digit_char (repeat 0 (Z.to_nat (- n)) ++ d :: r) ++ t)
      by (rewrite map_app, map_repeat0; reflexivity).
    cbn [parse_int_part Z.eqb Pos.eqb].
    rewrite parse_frac_some, parse_exp_none; try assumption.
    + change ([0] ++ repeat 0 (Z.to_nat (- n)) ++ d :: r) with (repeat 0 (S (Z.to_nat (- n))) ++ d :: r).
      rewrite dval_repeat0, V, length_app, repeat_length. simpl length.
      apply (f_equal (fun x => Some (x, t))). f_equal. lia.
    + destruct (Z.to_nat (- n)); discriminate.
    + apply List.Forall_app. split; [|exact Hd'].
      apply List.Forall_forall. intros y Hy. apply repeat_spec in Hy. unfold is_dig. lia.
  - subst k. destruct r; [|simpl in Lr; lia].
    replace ((map digit_char [d] ++ exp_text (n - 1)) ++ t)
      with (digit_char d :: map digit_char [] ++ (exp_text (n - 1) ++ t))
      by (rewrite <- app_assoc; reflexivity).
    rewrite parse_int_lead by first [lia | assumption | constructor | apply stop_exp].
    rewrite parse_frac_none by (unfold exp_text; simpl; lia).
    rewrite parse_exp_text by exact St.
    simpl in V. rewrite app_nil_r.
    apply (f_equal (fun x => Some (x, t))). f_equal; [exact V | simpl; lia].
  - destruct r as [|d1 r]; [simpl in Lr; lia|].
    replace ((firstn 1 (map digit_char (d :: d1 :: r)) ++ 46 :: skipn 1 (map digit_char (d :: d1 :: r))
                ++ exp_text (n - 1)) ++ t)
      with (digit_char d :: map digit_char [] ++ (46 :: map digit_char (d1 :: r) ++ (exp_text (n - 1) ++ t)))
      by (cbn [firstn skipn map app]; rewrite <- !app_assoc; reflexivity).
    rewrite parse_int_lead by first [lia | assumption | constructor | reflexivity].
    rewrite parse_frac_some by (try discriminate; try apply stop_exp; inversion Hr; assumption).
    rewrite parse_exp_text by exact St.
    change ([d] ++ d1 :: r) with (d :: d1 :: r). rewrite V.
    apply (f_equal (fun x => Some (x, t))). f_equal. simpl length in Lr |- *. lia.
Qed.
Lemma round_dec_sign (neg : bool) (s j : Z) :
  round_dec neg s j = with_sign neg (round_dec false s j).
Proof.
  unfold round_dec. destruct (s =? 0); [reflexivity|]. apply round_pos_sign.
Qed.

Lemma parse_unsigned_head (neg : bool) (s : list Z) (p : double * list Z) :
  parse_unsigned neg s = Some p -> exists c r, s = c :: r /\ is_digit_unit c = true.
Proof.
  unfold parse_unsigned, parse_int_part. destruct s as [|c r]; [discriminate|].
  intros H. exists c, r. split; [reflexivity|].
  destruct (Z.eqb_spec c 48) as [->|_]; [reflexivity|].
  destruct (is_digit_unit c); [reflexivity | discriminate].
Qed.

Lemma format_head (s k n : Z) :
  1 <= k -> 10 ^ (k - 1) <= s < 10 ^ k ->
  exists c r, format s k n = c :: r /\ is_digit_unit c = true.
Proof.
  intros Hk Hs.
  pose proof (parse_unsigned_format false s k n [] Hk Hs I) as P.
  apply parse_unsigned_head in P as (c & r & E & D).
  rewrite app_nil_r in E. eauto.
Qed.

Lemma shortest_text (neg : bool) (m : positive) (e : Z) :
  valid_binary 53 1024 (S754_finite neg m e) = true ->
  exists s k n, Number_toString (S754_finite neg m e) = (if neg then [45] else []) ++ format s k n
    /\ round_dec false s (n - k) = S754_finite false m e /\ 1 <= k /\ 10 ^ (k - 1) <= s < 10 ^ k.
Proof.
  intros V. assert (V' : valid_binary 53 1024 (S754_finite false m e) = true) by exact V.
  pose proof (shortest_some m e V') as N. unfold Number_toString.
  destruct (shortest m e) as [[[s k] n]|] eqn:S; [|contradiction].
  exists s, k, n. apply shortest_spec in S. split; [reflexivity | exact S].
Qed.

Lemma parse_number_unsigned (s : list Z) (p : double * list Z) :
  parse_unsigned false s = Some p -> parse_number s = Some p.
Proof.
  intros H. pose proof (parse_unsigned_head false s p H) as (c & r & -> & D).
  unfold parse_number. replace (c =? 45) with false; [exact H|].
  symmetry. apply Z.eqb_neq. intros ->. discriminate D.
Qed.

(** [JSON.parse] reads back the text of every finite double. *)
Lemma parse_number_toString (x : double) (t : list Z) :
  valid_binary 53 1024 x = true -> is_finite x = true -> num_end t ->
  parse_number (Number_toString x ++ t) = Some (num_norm x, t).
Proof.
  intros V F Ht. destruct x as [b| b | |b m e]; try discriminate F.
  - cbn [Number_toString app num_norm]. unfold parse_number. cbn [Z.eqb Pos.eqb].
    unfold parse_unsigned. cbn [parse_int_part Z.eqb Pos.eqb].
    rewrite parse_frac_none, parse_exp_none by (destruct t; simpl in *; tauto).
    reflexivity.
  - destruct (shortest_text b m e V) as (s & k & n & E & R & Hk & Hs). rewrite E.
    destruct b.
    + cbn [app]. unfold parse_number. cbn [Z.eqb Pos.eqb].
      rewrite parse_unsigned_format by assumption.
      rewrite round_dec_sign, R. reflexivity.
    + cbn [app]. apply parse_number_unsigned.
      rewrite parse_unsigned_format by assumption. rewrite R. reflexivity.
Qed.

Lemma Number_toString_head (x : double) :
  valid_binary 53 1024 x = true -> is_finite x = true ->
  exists c r, Number_toString x = c :: r /\ (c = 45 \/ is_digit_unit c = true).
Proof.
  intros V F. destruct x as [b| b | |b m e]; try discriminate F.
  - exists 48, []. split; [reflexivity | right; reflexivity].
  - destruct (shortest_text b m e V) as (s & k & n & E & R & Hk & Hs). rewrite E.
    destruct b; [eexists _, _; split; [reflexivity | left; reflexivity]|].
    destruct (format_head s k n Hk Hs) as (c & r & -> & D). exists c, r. auto.
Qed.

Lemma double_of_Z_repr (z : Z) :
  z <> 0 -> safe_int z ->
  let L := Z.log2 (Z.abs z) in
  valid_binary 53 1024 (S754_finite (z <? 0) (Z.to_pos (Z.abs z * 2 ^ (52 - L))) (L - 52)) = true
  /\ double_of_Z z = S754_finite (z <? 0) (Z.to_pos (Z.abs z * 2 ^ (52 - L))) (L - 52).
Proof.
  intros Hz Hs L. unfold safe_int in Hs.
  pose proof (log2_spec' (Z.abs z) ltac:(lia)) as [[L1 L2] L0]. fold L in L1, L2, L0.
  assert (L52 : L <= 52).
  { destruct (Z.le_gt_cases L 52) as [H|H]; [exact H|].
    assert (2 ^ 53 <= 2 ^ L) by (apply Z.pow_le_mono_r; lia). lia. }
  pose proof (pow_pos 2 (52 - L) ltac:(lia) ltac:(lia)) as P.
  assert (Mpos : 0 < Z.abs z * 2 ^ (52 - L)) by nia.
  assert (LM : Z.log2 (Z.abs z * 2 ^ (52 - L)) = 52)
    by (rewrite Z.log2_mul_pow2 by lia; lia).
  assert (V : valid_binary 53 1024
                (S754_finite (z <? 0) (Z.to_pos (Z.abs z * 2 ^ (52 - L))) (L - 52)) = true).
  { unfold valid_binary, bounded, canonical_mantissa, fexp, emin.
    apply andb_true_intro. split; [apply Z.eqb_eq | apply Z.leb_le; lia].
    rewrite digits2_log2, Z2Pos.id, LM by lia. lia. }
  split; [exact V|].
  unfold double_of_Z, round_dec.
  replace (Z.abs z =? 0) with false by (symmetry; apply Z.eqb_neq; lia).
  rewrite scale_nonneg by lia. cbn [fst snd]. rewrite Z.pow_0_r, Z.mul_1_r.
  apply round_pos_exact; [lia | lia | exact V |].
  rewrite scale_nonneg by lia. cbn [fst snd]. rewrite Z2Pos.id by lia.
  replace (- (L - 52)) with (52 - L) by lia. ring.
Qed.

Lemma double_of_Z_valid (z : Z) : safe_int z -> valid_binary 53 1024 (double_of_Z z) = true.
Proof.
  intros Hs. destruct (Z.eq_dec z 0) as [->|Hz]; [reflexivity|].
  destruct (double_of_Z_repr z Hz Hs) as [V E]. rewrite E. exact V.
Qed.

Lemma double_of_Z_finite (z : Z) : safe_int z -> is_finite (double_of_Z z) = true.
Proof.
  intros Hs. destruct (Z.eq_dec z 0) as [->|Hz]; [reflexivity|].
  destruct (double_of_Z_repr z Hz Hs) as [V E]. rewrite E. reflexivity.
Qed.

Lemma Z_of_double_of_Z (z : Z) : safe_int z -> Z_of_double (double_of_Z z) = Some z.
Proof.
  intros Hs. destruct (Z.eq_dec z 0) as [->|Hz]; [reflexivity|].
  destruct (double_of_Z_repr z Hz Hs) as [V E]. rewrite E.
  set (L := Z.log2 (Z.abs z)) in *.
  pose proof (log2_spec' (Z.abs z) ltac:(lia)) as [[L1 L2] L0]. fold L in L1, L2, L0.
  unfold safe_int in Hs.
  assert (L52 : L <= 52).
  { destruct (Z.le_gt_cases L 52) as [H|H]; [exact H|].
    assert (2 ^ 53 <= 2 ^ L) by (apply Z.pow_le_mono_r; lia). lia. }
  pose proof (pow_pos 2 (52 - L) ltac:(lia) ltac:(lia)) as P.
  cbn [Z_of_double]. rewrite Z2Pos.id by nia.
  destruct (Z.leb_spec 0 (L - 52)) as [H|H].
  - assert (L = 52) by lia. subst L. rewrite H0. rewrite Z.sub_diag, Z.pow_0_r, Z.mul_1_r.
    destruct (Z.ltb_spec z 0); f_equal; lia.
  - replace (- (L - 52)) with (52 - L) by lia.
    rewrite Z.mod_mul, Z.eqb_refl, Z.div_mul by lia.
    destruct (Z.ltb_spec z 0); f_equal; lia.
Qed.

(** Zero is a JavaScript [0], not [-0]. *)
Lemma num_norm_double_of_Z (z : Z) : safe_int z -> num_norm (double_of_Z z) = double_of_Z z.
Proof.
  intros Hs. destruct (Z.eq_dec z 0) as [->|Hz]; [reflexivity|].
  destruct (double_of_Z_repr z Hz Hs) as [V E]. rewrite E. reflexivity.
Qed.

(* ================================================================== *)
(** * JSON text: the parser reads back what the printer writes *)

Lemma hex_digit_val (n : Z) : 0 <= n < 16 -> hex_val (hex_digit n) = Some n.
Proof.
  intros H. unfold hex_digit, hex_val. destruct (Z.ltb_spec n 10).
  - replace ((48 <=? 48 + n) && (48 + n <=? 57)) with true
      by (symmetry; apply andb_true_intro; split; apply Z.leb_le; lia).
    f_equal; lia.
  - replace ((48 <=? 87 + n) && (87 + n <=? 57)) with false
      by (symmetry; apply andb_false_intro2; apply Z.leb_gt; lia).
    replace ((97 <=? 87 + n) && (87 + n <=? 102)) with true
      by (symmetry; apply andb_true_intro; split; apply Z.leb_le; lia).
    f_equal; lia.
Qed.

Lemma hex4_digits (c : Z) :
  0 <= c < 65536 ->
  hex4 (hex_digit (c / 4096)) (hex_digit (c / 256 mod 16)) (hex_digit (c / 16 mod 16))
       (hex_digit (c mod 16)) = Some c.
Proof.
  intros H.
  assert (A : 0 <= c / 4096 < 16) by (split; [apply Z.div_pos | apply Z.div_lt_upper_bound]; lia).
  unfold hex4. rewrite !hex_digit_val by (assumption || (apply Z.mod_pos_bound; lia)).
  f_equal.
  pose proof (Z.div_mod c 16 ltac:(lia)) as E1.
  pose proof (Z.div_mod (c / 16) 16 ltac:(lia)) as E2.
  pose proof (Z.div_mod (c / 256) 16 ltac:(lia)) as E3.
  rewrite Z.div_div in E2 by lia. rewrite Z.div_div in E3 by lia.
  change (16 * 16) with 256 in E2. change (256 * 16) with 4096 in E3. lia.
Qed.

Lemma u_escape_parse (c : Z) (t : list Z) :
  0 <= c < 65536 -> parse_chars (u_escape c ++ t) = cons_unit c (parse_chars t).
Proof.
  intros H. unfold u_escape. cbn [app parse_chars Z.eqb Pos.eqb simple_escape].
  rewrite hex4_digits by exact H. reflexivity.
Qed.

Lemma raw_unit_parse (c : Z) (t : list Z) :
  32 <= c -> c <> 34 -> c <> 92 -> parse_chars (c :: t) = cons_unit c (parse_chars t).
Proof.
  intros H1 H2 H3. cbn [parse_chars].
  replace (c =? 34) with false by (symmetry; apply Z.eqb_neq; exact H2).
  replace (c =? 92) with false by (symmetry; apply Z.eqb_neq; exact H3).
  replace (c <? 32) with false by (symmetry; apply Z.ltb_ge; exact H1). reflexivity.
Qed.

Lemma escape_unit_parse (c : Z) (t : list Z) :
  0 <= c < 65536 -> parse_chars (escape_unit c ++ t) = cons_unit c (parse_chars t).
Proof.
  intros H. unfold escape_unit.
  destruct (Z.eqb_spec c 8) as [->|N1]; [reflexivity|].
  destruct (Z.eqb_spec c 9) as [->|N2]; [reflexivity|].
  destruct (Z.eqb_spec c 10) as [->|N3]; [reflexivity|].
  destruct (Z.eqb_spec c 12) as [->|N4]; [reflexivity|].
  destruct (Z.eqb_spec c 13) as [->|N5]; [reflexivity|].
  destruct (Z.eqb_spec c 34) as [->|N6]; [reflexivity|].
  destruct (Z.eqb_spec c 92) as [->|N7]; [reflexivity|].
  destruct ((c <? 32) || is_lead c || is_trail c) eqn:C.
  - apply u_escape_parse. exact H.
  - apply orb_false_elim in C as [C _]. apply orb_false_elim in C as [C _].
    apply Z.ltb_ge in C. apply raw_unit_parse; assumption.
Qed.

Lemma surrogate_range (c : Z) : is_lead c = true \/ is_trail c = true -> 32 <= c /\ c <> 34 /\ c <> 92.
Proof.
  unfold is_lead, is_trail. intros [H|H]; apply andb_prop in H as [H1 H2];
    apply Z.leb_le in H1; apply Z.leb_le in H2; lia.
Qed.

Lemma escape_units_parse (s t : list Z) :
  forallb is_unit s = true -> parse_chars (escape_units s ++ 34 :: t) = Some (s, t).
Proof.
  remember (length s) as n eqn:Hn. revert s Hn.
  induction n as [n IH] using lt_wf_ind. intros s Hn Hs.
  destruct s as [|c r]; [reflexivity|].
  cbn [forallb] in Hs. apply andb_prop in Hs as [Hc Hr].
  unfold is_unit in Hc. apply andb_prop in Hc as [Hc1 Hc2].
  apply Z.leb_le in Hc1. apply Z.ltb_lt in Hc2.
  cbn [escape_units]. destruct (is_lead c) eqn:L.
  - destruct r as [|c2 r2].
    + rewrite escape_unit_parse by lia. reflexivity.
    + cbn [forallb] in Hr. apply andb_prop in Hr as [Hc' Hr2].
      destruct (is_trail c2) eqn:T.
      * pose proof (surrogate_range c (or_introl L)) as (A1 & A2 & A3).
        pose proof (surrogate_range c2 (or_intror T)) as (B1 & B2 & B3).
        cbn [app]. rewrite raw_unit_parse, raw_unit_parse by assumption.
        rewrite (IH (length r2)) by (simpl in Hn; lia || assumption || reflexivity).
        reflexivity.
      * rewrite <- app_assoc, escape_unit_parse by lia.
        rewrite (IH (length (c2 :: r2))); [reflexivity | simpl in *; lia | reflexivity |].
        simpl. rewrite Hc', Hr2. reflexivity.
  - rewrite <- app_assoc, escape_unit_parse by lia.
    rewrite (IH (length r)) by (simpl in Hn; lia || assumption || reflexivity).
    reflexivity.
Qed.

Lemma parse_value_str (f : nat) (s t : list Z) :
  forallb is_unit s = true -> parse_value (S f) (quote s ++ t) = Some (JStr s, t).
Proof.
  intros H. unfold quote. cbn [app]. rewrite <- app_assoc. cbn [app].
  cbn -[parse_chars escape_units]. rewrite escape_units_parse by exact H. reflexivity.
Qed.

Lemma num_head_props (c : Z) :
  (c = 45 \/ is_digit_unit c = true) ->
  is_ws c = false /\ c <> 110 /\ c <> 116 /\ c <> 102 /\ c <> 34 /\ c <> 91 /\ c <> 123 /\ c <> 93.
Proof.
  intros H. assert (R : 45 <= c <= 57).
  { destruct H as [->|H]; [lia|]. unfold is_digit_unit in H.
    apply andb_prop in H as [H1 H2]. apply Z.leb_le in H1, H2. lia. }
  split; [|lia]. unfold is_ws.
  rewrite (proj2 (Z.eqb_neq c 32)), (proj2 (Z.eqb_neq c 9)), (proj2 (Z.eqb_neq c 10)),
    (proj2 (Z.eqb_neq c 13)) by lia. reflexivity.
Qed.

Lemma parse_value_num_head (f : nat) (c : Z) (r : list Z) :
  (c = 45 \/ is_digit_unit c = true) ->
  parse_value (S f) (c :: r)
  = match parse_number (c :: r) with Some (x, r') => Some (JNum x, r') | None => None end.
Proof.
  intros H. destruct (num_head_props c H) as (W & N1 & N2 & N3 & N4 & N5 & N6 & _).
  cbn [parse_value skip_ws]. rewrite W.
  unfold null_text, true_text, false_text. cbn [strip_prefix].
  rewrite (proj2 (Z.eqb_neq 110 c)), (proj2 (Z.eqb_neq 116 c)), (proj2 (Z.eqb_neq 102 c))
    by lia.
  rewrite (proj2 (Z.eqb_neq c 34)), (proj2 (Z.eqb_neq c 91)), (proj2 (Z.eqb_neq c 123))
    by lia.
  reflexivity.
Qed.

Lemma parse_value_number (f : nat) (x : double) (t : list Z) :
  valid_binary 53 1024 x = true -> is_finite x = true -> num_end t ->
  parse_value (S f) (Number_toString x ++ t) = Some (JNum (num_norm x), t).
Proof.
  intros V F T. pose proof (parse_number_toString x t V F T) as P.
  destruct (Number_toString_head x V F) as (c & r & E & Hc).
  rewrite E in *. cbn [app] in *. rewrite parse_value_num_head by exact Hc.
  rewrite P. reflexivity.
Qed.

Lemma stringify_JObj (m : list (list Z * json)) :
  stringify (JObj m) = 123 :: join (map member_text m) ++ [125].
Proof. reflexivity. Qed.

Lemma stringify_JArr (l : list json) :
  stringify (JArr l) = 91 :: join (map stringify l) ++ [93].
Proof. reflexivity. Qed.

Lemma member_text_app (k : list Z) (v : json) (t : list Z) :
  member_text (k, v) ++ t = 34 :: escape_units k ++ 34 :: 58 :: stringify v ++ t.
Proof. unfold member_text, quote. cbn [fst snd app]. rewrite <- !app_assoc. reflexivity. Qed.

Lemma stringify_head (v : json) :
  json_okb v = true -> exists c r, stringify v = c :: r /\ is_ws c = false /\ c <> 93.
Proof.
  intros Hv. destruct v as [| [] | x | s | l | m].
  1-3: eexists _, _; split; [reflexivity | split; [reflexivity | discriminate]].
  - cbn [stringify]. destruct (is_finite x) eqn:F.
    + destruct (Number_toString_head x Hv F) as (c & r & E & Hc). rewrite E.
      destruct (num_head_props c Hc) as (W & _ & _ & _ & _ & _ & _ & N).
      exists c, r. auto.
    + eexists _, _. split; [reflexivity | split; [reflexivity | discriminate]].
  - eexists _, _. split; [reflexivity | split; [reflexivity | discriminate]].
  - eexists _, _. split; [rewrite stringify_JArr; reflexivity | split; [reflexivity | discriminate]].
  - eexists _, _. split; [rewrite stringify_JObj; reflexivity | split; [reflexivity | discriminate]].
Qed.

Lemma num_end_sep (c : Z) (t : list Z) :
  c = 44 \/ c = 93 \/ c = 125 -> num_end (c :: t).
Proof. intros H. cbn [num_end]. unfold is_digit_unit. destruct H as [->|[->| ->]]; repeat split; (reflexivity || lia). Qed.

Lemma parse_elems_gen (l : list json) :
  Forall parses l -> l <> [] -> forall f t, (esize l <= f)%nat ->
  parse_elems f (join (map stringify l) ++ 93 :: t) = Some (map json_norm l, t).
Proof.
  induction l as [|v l IH]; intros Hf Hne f t Hlen; [contradiction|].
  inversion Hf as [|? ? Hv Hl]; subst.
  unfold esize in Hlen; simpl in Hlen; fold (esize l) in Hlen.
  destruct f as [|g]; [lia|].
  destruct l as [|v' l'].
  - cbn [map join]. cbn -[parse_value stringify].
    rewrite Hv by (lia || (apply num_end_sep; auto)). reflexivity.
  - cbn [map join]. fold (join (map stringify (v' :: l'))). rewrite <- app_assoc. cbn [app].
    cbn -[parse_value stringify join map].
    rewrite Hv by (lia || (apply num_end_sep; auto)).
    cbn -[parse_elems stringify join map].
    rewrite IH by (auto || discriminate || lia).
    reflexivity.
Qed.

Lemma parse_members_gen (m : list (list Z * json)) :
  Forall (fun kv => forallb is_unit (fst kv) = true /\ parses (snd kv)) m -> m <> [] ->
  forall f t, (msize m <= f)%nat ->
  parse_members f (join (map member_text m) ++ 125 :: t)
  = Some (map (fun kv => (fst kv, json_norm (snd kv))) m, t).
Proof.
  induction m as [|[k v] m IH]; intros Hf Hne f t Hlen; [contradiction|].
  inversion Hf as [|? ? [Hk Hv] Hm]; subst. simpl in Hk, Hv.
  unfold msize in Hlen; simpl in Hlen; fold (msize m) in Hlen.
  destruct f as [|g]; [lia|].
  destruct m as [|kv' m'].
  - cbn [map join]. rewrite member_text_app.
    cbn -[parse_value escape_units parse_chars]. rewrite escape_units_parse by exact Hk.
    cbn -[parse_value]. rewrite Hv by (lia || (apply num_end_sep; auto)).
    reflexivity.
  - cbn [map join]. fold (join (map member_text (kv' :: m'))).
    rewrite <- app_assoc, member_text_app. cbn [app].
    cbn -[parse_value escape_units parse_chars join map].
    rewrite escape_units_parse by exact Hk.
    cbn -[parse_value join map stringify]. rewrite Hv by (lia || (apply num_end_sep; auto)).
    cbn -[parse_members join map].
    rewrite IH by (auto || discriminate || lia).
    reflexivity.
Qed.

Lemma parse_value_roundtrip (v : json) : json_okb v = true -> parses v.
Proof.
  induction v as [| b | x | s | l Hl | m Hm] using json_ind'; intros Hok h t Hh Ht;
    simpl in Hh; destruct h as [|f]; try lia.
  - reflexivity.
  - destruct b; reflexivity.
  - cbn [stringify json_norm]. destruct (is_finite x) eqn:F.
    + apply parse_value_number; assumption.
    + reflexivity.
  - apply parse_value_str. exact Hok.
  - cbn [json_okb] in Hok.
    assert (Hp : Forall parses l).
    { apply List.Forall_forall. intros e He.
      apply (proj1 (List.Forall_forall _ l) Hl e He).
      exact (proj1 (forallb_forall _ l) Hok e He). }
    destruct l as [|v l']; [reflexivity|].
    inversion Hp as [|? ? Hv0 _]; subst.
    assert (Hv : json_okb v = true) by (cbn [forallb] in Hok; apply andb_prop in Hok; tauto).
    rewrite stringify_JArr. cbn [app]. rewrite <- app_assoc. cbn [app].
    destruct (stringify_head v Hv) as (c & r & Hs & Hw & Hc).
    assert (Hn : exists r', next_char (join (map stringify (v :: l')) ++ 93 :: t) = Some (c, r')).
    { destruct l' as [|v' l''].
      - cbn [map join]. rewrite Hs. unfold next_char. cbn [app skip_ws]. rewrite Hw.
        eexists. reflexivity.
      - cbn [map join]. rewrite Hs. unfold next_char. cbn [app skip_ws]. rewrite Hw.
        eexists. reflexivity. }
    destruct Hn as [r' Hn].
    remember (join (map stringify (v :: l'))) as X eqn:EX.
    cbn -[next_char parse_elems]. rewrite Hn.
    cbn -[parse_elems].
    rewrite (proj2 (Z.eqb_neq c 93)) by exact Hc.
    subst X. rewrite parse_elems_gen by (exact Hp || discriminate || (unfold esize; lia)).
    reflexivity.
  - cbn [json_okb] in Hok.
    assert (Hp : Forall (fun kv => forallb is_unit (fst kv) = true /\ parses (snd kv)) m).
    { apply List.Forall_forall. intros kv Hkv.
      pose proof (proj1 (forallb_forall _ m) Hok kv Hkv) as Hb.
      apply andb_prop in Hb as [Hb1 Hb2]. split; [exact Hb1|].
      exact (proj1 (List.Forall_forall _ m) Hm kv Hkv Hb2). }
    destruct m as [|[k v] m']; [reflexivity|].
    rewrite stringify_JObj. cbn [app]. rewrite <- app_assoc. cbn [app].
    assert (Hn : exists r', next_char (join (map member_text ((k, v) :: m')) ++ 125 :: t)
                            = Some (34, r')).
    { destruct m' as [|kv' m''].
      - cbn [map join]. rewrite member_text_app. eexists. reflexivity.
      - cbn [map join]. rewrite <- app_assoc, member_text_app. eexists. reflexivity. }
    destruct Hn as [r' Hn].
    remember (join (map member_text ((k, v) :: m'))) as X eqn:EX.
    cbn -[next_char parse_members]. rewrite Hn.
    cbn -[parse_members].
    subst X. rewrite parse_members_gen by (exact Hp || discriminate || (unfold msize; lia)).
    reflexivity.
Qed.

Lemma esize_le (l : list json) :
  Forall (fun v => (jsize v <= length (stringify v))%nat) l ->
  (esize l <= S (length (join (map stringify l))))%nat.
Proof.
  induction l as [|v l IH]; intros H; [simpl; lia|].
  inversion H as [|? ? Hv Hl]; subst. specialize (IH Hl).
  unfold esize; simpl fold_right; fold (esize l).
  destruct l as [|v' l'].
  - cbn [map join]. unfold esize in *. simpl in *. lia.
  - cbn [map join] in *. fold (join (map stringify (v' :: l'))) in *.
    rewrite length_app. cbn [length]. lia.
Qed.

Lemma member_text_length (kv : list Z * json) :
  (length (stringify (snd kv)) + 3 <= length (member_text kv))%nat.
Proof.
  destruct kv as [k v]. unfold member_text, quote. cbn [fst snd].
  rewrite length_app. cbn [length app]. rewrite length_app. cbn [length]. lia.
Qed.

Lemma msize_le (m : list (list Z * json)) :
  Forall (fun kv => (jsize (snd kv) <= length (stringify (snd kv)))%nat) m ->
  (msize m <= S (length (join (map member_text m))))%nat.
Proof.
  induction m as [|kv m IH]; intros H; [simpl; lia|].
  inversion H as [|? ? Hv Hm]; subst. specialize (IH Hm).
  pose proof (member_text_length kv) as Hk.
  unfold msize; simpl fold_right; fold (msize m).
  destruct m as [|kv' m'].
  - cbn [map join]. unfold msize in *. simpl in *. lia.
  - cbn [map join] in *. fold (join (map member_text (kv' :: m'))) in *.
    rewrite length_app. cbn [length]. lia.
Qed.

Lemma jsize_le_length (v : json) :
  json_okb v = true -> (jsize v <= length (stringify v))%nat.
Proof.
  induction v as [| b | x | s | l Hl | m Hm] using json_ind'; intros Hok.
  - simpl. lia.
  - destruct b; simpl; lia.
  - cbn [stringify jsize]. destruct (is_finite x) eqn:F.
    + destruct (Number_toString_head x Hok F) as (c & r & -> & _). simpl. lia.
    + simpl. lia.
  - cbn [stringify jsize]. unfold quote. simpl. lia.
  - change (jsize (JArr l)) with (S (esize l)).
    cbn [json_okb] in Hok.
    assert (H : Forall (fun v => (jsize v <= length (stringify v))%nat) l).
    { apply List.Forall_forall. intros e He.
      exact (proj1 (List.Forall_forall _ l) Hl e He (proj1 (forallb_forall _ l) Hok e He)). }
    pose proof (esize_le l H).
    rewrite stringify_JArr. cbn [length]. rewrite length_app. simpl. lia.
  - change (jsize (JObj m)) with (S (msize m)).
    cbn [json_okb] in Hok.
    assert (H : Forall (fun kv => (jsize (snd kv) <= length (stringify (snd kv)))%nat) m).
    { apply List.Forall_forall. intros kv Hkv.
      pose proof (proj1 (forallb_forall _ m) Hok kv Hkv) as Hb. apply andb_prop in Hb.
      exact (proj1 (List.Forall_forall _ m) Hm kv Hkv (proj2 Hb)). }
    pose proof (msize_le m H).
    rewrite stringify_JObj. cbn [length]. rewrite length_app. simpl. lia.
Qed.

Lemma json_parse_stringify (v : json) :
  json_okb v = true -> json_parse (stringify v) = Some (json_norm v).
Proof.
  intros Hok. unfold json_parse.
  pose proof (parse_value_roundtrip v Hok (S (2 * length (stringify v))) []
                ltac:(pose proof (jsize_le_length v Hok); lia) I) as E.
  rewrite app_nil_r in E. rewrite E. reflexivity.
Qed.

Lemma stringify_nonempty (v : json) : json_okb v = true -> stringify v <> [].
Proof. intros H. destruct (stringify_head v H) as (c & r & -> & _). discriminate. Qed.
Lemma skip_ws_len (s : list Z) : (length (skip_ws s) <= length s)%nat.
Proof. induction s as [|c s IH]; [reflexivity|]. cbn [skip_ws]. destruct (is_ws c); simpl; lia. Qed.

Lemma next_char_len (s r : list Z) (c : Z) :
  next_char s = Some (c, r) -> (length r < length s)%nat.
Proof.
  unfold next_char. pose proof (skip_ws_len s) as L.
  destruct (skip_ws s) as [|c' r']; [discriminate|]. intros H. injection H as <- <-. simpl in L. lia.
Qed.

Lemma strip_prefix_len (p s r : list Z) :
  strip_prefix p s = Some r -> (length r + length p = length s)%nat.
Proof.
  revert s. induction p as [|a p IH]; intros s H.
  - injection H as <-. simpl. lia.
  - destruct s as [|b s]; [discriminate|]. cbn [strip_prefix] in H.
    destruct (a =? b); [|discriminate]. apply IH in H. simpl. lia.
Qed.

Lemma cons_unit_len (c : Z) (o : option (list Z * list Z)) (t r : list Z) (n : nat) :
  cons_unit c o = Some (t, r) ->
  (forall t' r', o = Some (t', r') -> (length r' < n)%nat) -> (length r < n)%nat.
Proof.
  destruct o as [[t' r']|]; [|discriminate]. intros H K. injection H as _ <-. eauto.
Qed.

Lemma parse_chars_len (s t r : list Z) :
  parse_chars s = Some (t, r) -> (length r < length s)%nat.
Proof.
  remember (length s) as n eqn:Hn. revert s t r Hn.
  induction n as [n IH] using lt_wf_ind. intros s t r Hn H.
  destruct s as [|c r0]; [discriminate|]. cbn [parse_chars] in H. simpl in Hn.
  destruct (c =? 34).
  { injection H as _ <-. lia. }
  destruct (c =? 92).
  - destruct r0 as [|e r1]; [discriminate|].
    destruct (simple_escape e).
    + eapply cons_unit_len; [exact H|]. intros t' r' E.
      apply (IH (length r1)) in E; simpl in *; lia.
    + destruct (e =? 117); [|discriminate].
      destruct r1 as [|h1 [|h2 [|h3 [|h4 r2]]]]; try discriminate.
      destruct (hex4 h1 h2 h3 h4); [|discriminate].
      eapply cons_unit_len; [exact H|]. intros t' r' E.
      apply (IH (length r2)) in E; simpl in *; lia.
  - destruct (c <? 32); [discriminate|].
    eapply cons_unit_len; [exact H|]. intros t' r' E.
    apply (IH (length r0)) in E; simpl in *; lia.
Qed.

Lemma take_digits_len (s : list Z) : (length (snd (take_digits s)) <= length s)%nat.
Proof.
  induction s as [|c s IH]; [reflexivity|]. cbn [take_digits].
  destruct (is_digit_unit c); [|simpl; lia].
  destruct (take_digits s) as [ds r']. simpl in *. lia.
Qed.

Lemma parse_number_len (s r : list Z) (x : double) :
  parse_number s = Some (x, r) -> (length r < length s)%nat.
Proof.
  assert (U : forall neg s, parse_unsigned neg s = Some (x, r) -> (length r < length s)%nat).
  { clear s. intros neg s H. unfold parse_unsigned in H.
    destruct (parse_int_part s) as [[ip s2]|] eqn:E1; [|discriminate].
    destruct (parse_frac s2) as [[fp s3]|] eqn:E2; [|discriminate].
    destruct (parse_exp s3) as [[xp s4]|] eqn:E3; [|discriminate].
    injection H as _ <-.
    assert (L1 : (length s2 < length s)%nat).
    { destruct s as [|c r0]; [discriminate|]. cbn [parse_int_part] in E1.
      destruct (c =? 48). { injection E1 as _ <-. simpl. lia. }
      destruct (is_digit_unit c) eqn:D; [|discriminate]. injection E1 as E1.
      cbn [take_digits] in E1. rewrite D in E1.
      pose proof (take_digits_len r0) as T.
      destruct (take_digits r0) as [ds r']. injection E1 as _ <-. simpl in *. lia. }
    assert (L2 : (length s3 <= length s2)%nat).
    { destruct s2 as [|c r0]; [injection E2 as _ <-; lia|]. cbn [parse_frac] in E2.
      destruct (c =? 46).
      - pose proof (take_digits_len r0) as T.
        destruct (take_digits r0) as [[|d ds] r']; [discriminate|]. injection E2 as _ <-.
        simpl in *. lia.
      - injection E2 as _ <-. lia. }
    assert (L3 : (length s4 <= length s3)%nat).
    { destruct s3 as [|c r0]; [injection E3 as _ <-; lia|]. cbn [parse_exp] in E3.
      destruct ((c =? 101) || (c =? 69)).
      - assert (R : exists sg r1, (length r1 <= length r0)%nat /\
                  match take_digits r1 with
                  | ([], _) => None
                  | (ds, r2) => Some (sg * dval ds, r2)
                  end = Some (xp, s4)).
        { destruct r0 as [|c1 r1'].
          - exists 1, []. split; [lia | exact E3].
          - destruct (c1 =? 43); [exists 1, r1'; simpl; split; [lia | exact E3]|].
            destruct (c1 =? 45); [exists (-1), r1'; simpl; split; [lia | exact E3]|].
            exists 1, (c1 :: r1'). split; [lia | exact E3]. }
        destruct R as (sg & r1 & Lr & E). pose proof (take_digits_len r1) as T.
        destruct (take_digits r1) as [[|d ds] r2]; [discriminate|]. injection E as _ <-.
        simpl in *. lia.
      - injection E3 as _ <-. lia. }
    lia. }
  destruct s as [|c r0]; [discriminate|]. cbn [parse_number].
  destruct (c =? 45); intros H; apply U in H; simpl in *; lia.
Qed.

Lemma fuel_ok (f : nat) : pv_ok f /\ pe_ok f /\ pm_ok f.
Proof.
  induction f as [|f (PV & PE & PM)].
  { split; [|split]; intros s x r H; discriminate H. }
  split; [|split].
  - intros s v r H. cbn [parse_value] in H.
    remember (skip_ws s) as s0 eqn:Hs0.
    assert (L0 : (length s0 <= length s)%nat) by (subst s0; apply skip_ws_len).
    destruct (strip_prefix null_text s0) as [r0|] eqn:E1.
    { injection H as <- <-. apply strip_prefix_len in E1 as L. simpl in L.
      split; [lia|]. intros g Hg. cbn [parse_value]. rewrite <- Hs0, E1. reflexivity. }
    destruct (strip_prefix true_text s0) as [r0|] eqn:E2.
    { injection H as <- <-. apply strip_prefix_len in E2 as L. simpl in L.
      split; [lia|]. intros g Hg. cbn [parse_value]. rewrite <- Hs0, E1, E2. reflexivity. }
    destruct (strip_prefix false_text s0) as [r0|] eqn:E3.
    { injection H as <- <-. apply strip_prefix_len in E3 as L. simpl in L.
      split; [lia|]. intros g Hg. cbn [parse_value]. rewrite <- Hs0, E1, E2, E3. reflexivity. }
    destruct s0 as [|c r0]; [discriminate H|]. simpl in L0.
    destruct (c =? 34) eqn:C34.
    { destruct (parse_chars r0) as [[t r1]|] eqn:E4; [|discriminate H].
      injection H as <- <-. apply parse_chars_len in E4 as L.
      split; [lia|]. intros g Hg. cbn [parse_value]. rewrite <- Hs0, E1, E2, E3.
      cbv beta iota. rewrite C34, E4. reflexivity. }
    destruct (c =? 91) eqn:C91.
    { destruct (next_char r0) as [[c' r1]|] eqn:E4; [|discriminate H].
      apply next_char_len in E4 as L4.
      destruct (c' =? 93) eqn:C93.
      { injection H as <- <-. split; [lia|]. intros g Hg. cbn [parse_value].
        rewrite <- Hs0, E1, E2, E3. cbv beta iota. rewrite C34, C91, E4.
        cbv beta iota. rewrite C93. reflexivity. }
      destruct (parse_elems f r0) as [[vs r2]|] eqn:E5; [|discriminate H].
      injection H as <- <-. destruct (PE _ _ _ E5) as [L5 K5].
      split; [lia|]. intros g Hg. cbn [parse_value].
      rewrite <- Hs0, E1, E2, E3. cbv beta iota. rewrite C34, C91, E4.
      cbv beta iota. rewrite C93, (K5 g) by lia. reflexivity. }
    destruct (c =? 123) eqn:C123.
    { destruct (next_char r0) as [[c' r1]|] eqn:E4; [|discriminate H].
      apply next_char_len in E4 as L4.
      destruct (c' =? 125) eqn:C125.
      { injection H as <- <-. split; [lia|]. intros g Hg. cbn [parse_value].
        rewrite <- Hs0, E1, E2, E3. cbv beta iota. rewrite C34, C91, C123, E4.
        cbv beta iota. rewrite C125. reflexivity. }
      destruct (parse_members f r0) as [[ms r2]|] eqn:E5; [|discriminate H].
      injection H as <- <-. destruct (PM _ _ _ E5) as [L5 K5].
      split; [lia|]. intros g Hg. cbn [parse_value].
      rewrite <- Hs0, E1, E2, E3. cbv beta iota. rewrite C34, C91, C123, E4.
      cbv beta iota. rewrite C125, (K5 g) by lia. reflexivity. }
    destruct (parse_number (c :: r0)) as [[x r1]|] eqn:E4; [|discriminate H].
    injection H as <- <-. apply parse_number_len in E4 as L. simpl in L.
    split; [lia|]. intros g Hg. cbn [parse_value].
    rewrite <- Hs0, E1, E2, E3. cbv beta iota. rewrite C34, C91, C123, E4. reflexivity.
  - intros s vs r H. cbn [parse_elems] in H.
    destruct (parse_value f s) as [[v r1]|] eqn:E1; [|discriminate H].
    destruct (PV _ _ _ E1) as [L1 K1].
    destruct (next_char r1) as [[c r2]|] eqn:E2; [|discriminate H].
    apply next_char_len in E2 as L2.
    destruct (c =? 44) eqn:C44.
    { destruct (parse_elems f r2) as [[vs' r3]|] eqn:E3; [|discriminate H].
      injection H as <- <-. destruct (PE _ _ _ E3) as [L3 K3].
      split; [lia|]. intros g Hg. destruct g as [|g]; [lia|].
      assert (A : parse_value g s = Some (v, r1)) by (destruct g as [|g]; [lia|]; apply K1; lia).
      cbn [parse_elems]. rewrite A. cbv beta iota.
      rewrite E2. cbv beta iota. rewrite C44, (K3 g) by lia. reflexivity. }
    destruct (c =? 93) eqn:C93; [|discriminate H].
    injection H as <- <-. split; [lia|]. intros g Hg. destruct g as [|g]; [lia|].
    assert (A : parse_value g s = Some (v, r1)) by (destruct g as [|g]; [lia|]; apply K1; lia).
    cbn [parse_elems]. rewrite A. cbv beta iota.
    rewrite E2. cbv beta iota. rewrite C44, C93. reflexivity.
  - intros s ms r H. cbn [parse_members] in H.
    destruct (next_char s) as [[c r0]|] eqn:E1; [|discriminate H].
    apply next_char_len in E1 as L1.
    destruct (c =? 34) eqn:C34; [|discriminate H].
    destruct (parse_chars r0) as [[k r1]|] eqn:E2; [|discriminate H].
    apply parse_chars_len in E2 as L2.
    destruct (next_char r1) as [[c1 r2]|] eqn:E3; [|discriminate H].
    apply next_char_len in E3 as L3.
    destruct (c1 =? 58) eqn:C58; [|discriminate H].
    destruct (parse_value f r2) as [[v r3]|] eqn:E4; [|discriminate H].
    destruct (PV _ _ _ E4) as [L4 K4].
    destruct (next_char r3) as [[c3 r4]|] eqn:E5; [|discriminate H].
    apply next_char_len in E5 as L5.
    destruct (c3 =? 44) eqn:C44.
    { destruct (parse_members f r4) as [[ms' r5]|] eqn:E6; [|discriminate H].
      injection H as <- <-. destruct (PM _ _ _ E6) as [L6 K6].
      split; [lia|]. intros g Hg. destruct g as [|g]; [lia|].
      assert (A : parse_value g r2 = Some (v, r3)) by (destruct g as [|g]; [lia|]; apply K4; lia).
      cbn [parse_members]. rewrite E1. cbv beta iota. rewrite C34, E2. cbv beta iota.
      rewrite E3. cbv beta iota. rewrite C58, A. cbv beta iota.
      rewrite E5. cbv beta iota. rewrite C44, (K6 g) by lia. reflexivity. }
    destruct (c3 =? 125) eqn:C125; [|discriminate H].
    injection H as <- <-. split; [lia|]. intros g Hg. destruct g as [|g]; [lia|].
    assert (A : parse_value g r2 = Some (v, r3)) by (destruct g as [|g]; [lia|]; apply K4; lia).
    cbn [parse_members]. rewrite E1. cbv beta iota. rewrite C34, E2. cbv beta iota.
    rewrite E3. cbv beta iota. rewrite C58, A. cbv beta iota.
    rewrite E5. cbv beta iota. rewrite C44, C125. reflexivity.
Qed.

(** [json_parse] gives its fuel no say: a text that parses with any fuel,
    up to trailing white space, is accepted by [json_parse]. *)
Lemma json_parse_complete (f : nat) (s r : list Z) (v : json) :
  parse_value f s = Some (v, r) -> skip_ws r = [] -> json_parse s = Some v.
Proof.
  intros H W. destruct (proj1 (fuel_ok f) s v r H) as [L K].
  unfold json_parse. rewrite (K (2 * length s)%nat) by lia. rewrite W. reflexivity.
Qed.

(* ================================================================== *)
(** * Properties of the cart operations *)

Lemma find_id_None (l : list CartItem) (p : string) :
  List.find (fun i => String.eqb (id i) p) l = None <-> ~ In p (ids l).
Proof.
  induction l as [|x l IH]; simpl; [tauto|].
  destruct (String.eqb_spec (id x) p) as [E|E].
  - split; [discriminate | intros H; exfalso; apply H; left; exact E].
  - rewrite IH. split; [intros H [H'|H']; [exact (E H') | exact (H H')] | auto].
Qed.

Lemma ids_map (f : CartItem -> CartItem) (l : list CartItem) :
  (forall x, id (f x) = id x) -> ids (map f l) = ids l.
Proof.
  intros Hf. induction l as [|x l IH]; simpl; [reflexivity|]. now rewrite Hf, IH.
Qed.

Lemma ids_app (l1 l2 : list CartItem) : ids (l1 ++ l2) = ids l1 ++ ids l2.
Proof. apply map_app. Qed.

Lemma map_id_absent (f : CartItem -> CartItem) (p : string) (l : list CartItem) :
  ~ In p (ids l) ->
  map (fun i => if String.eqb (id i) p then f i else i) l = l.
Proof.
  induction l as [|x l IH]; simpl; intros H; [reflexivity|].
  destruct (String.eqb_spec (id x) p) as [E|E]; [exfalso; auto|].
  f_equal. apply IH. auto.
Qed.

Lemma filter_id_absent (p : string) (l : list CartItem) :
  ~ In p (ids l) -> List.filter (fun i => negb (String.eqb (id i) p)) l = l.
Proof.
  induction l as [|x l IH]; simpl; intros H; [reflexivity|].
  destruct (String.eqb_spec (id x) p) as [E|E]; [exfalso; auto|].
  simpl. f_equal. apply IH. auto.
Qed.

Lemma setQuantity_ids (l : list CartItem) (p : string) (q : Z) :
  ids (setQuantity_items l p q) = ids l.
Proof.
  apply ids_map. intros x. destruct (String.eqb (id x) p); reflexivity.
Qed.

Lemma addItem_ids_present (l : list CartItem) (c : NewItem) :
  In (n_id c) (ids l) -> ids (addItem_items l c) = ids l.
Proof.
  intros H. unfold addItem_items.
  destruct (List.find _ l) eqn:F.
  - apply ids_map. intros x. destruct (String.eqb (id x) (n_id c)); reflexivity.
  - apply find_id_None in F. contradiction.
Qed.

Lemma addItem_absent (l : list CartItem) (c : NewItem) :
  ~ In (n_id c) (ids l) -> addItem_items l c = l ++ [line_of c].
Proof.
  intros H. unfold addItem_items. apply find_id_None in H. now rewrite H.
Qed.

Lemma removeItem_not_in (l : list CartItem) (p : string) :
  ~ In p (ids (removeItem_items l p)).
Proof.
  induction l as [|x l IH]; simpl; [tauto|].
  destruct (String.eqb_spec (id x) p) as [E|E]; simpl; [exact IH|].
  intros [H|H]; [exact (E H) | exact (IH H)].
Qed.

Lemma removeItem_sublist (l : list CartItem) (p : string) :
  ids (removeItem_items l p) `sublist_of` ids l.
Proof.
  induction l as [|x l IH]; simpl; [constructor|].
  destruct (String.eqb (id x) p); simpl.
  - by apply sublist_cons.
  - by apply sublist_skip.
Qed.

Lemma NoDup_snoc (l : list string) (x : string) :
  List.NoDup l -> ~ In x l -> List.NoDup (l ++ [x]).
Proof.
  induction l as [|y l IH]; simpl; intros Hd Hx.
  - constructor; [tauto | constructor].
  - inversion Hd as [|? ? Hy Hl]; subst. constructor.
    + intros Hin. apply in_app_or in Hin.
      destruct Hin as [Hin|[Hin|[]]]; [exact (Hy Hin) | apply Hx; left; symmetry; exact Hin].
    + apply IH; auto.
Qed.

Lemma addItem_NoDup (l : list CartItem) (c : NewItem) :
  List.NoDup (ids l) -> List.NoDup (ids (addItem_items l c)).
Proof.
  intros Hd. destruct (in_dec string_dec (n_id c) (ids l)) as [H|H].
  - now rewrite addItem_ids_present.
  - rewrite addItem_absent, ids_app by exact H. now apply NoDup_snoc.
Qed.

Lemma Forall_filterb {A} (P : A -> Prop) (f : A -> bool) (l : list A) :
  Forall P l -> Forall P (List.filter f l).
Proof.
  induction 1 as [|x l Hx Hl IH]; simpl; [constructor|].
  destruct (f x); [constructor|]; assumption.
Qed.

Lemma step_quantities_positive (w : World) (o : Op) :
  quantities_positive (items w) -> quantities_positive (items (step w o)).
Proof.
  unfold quantities_positive. intros H.
  destruct o as [c|p|p q|]; simpl.
  - unfold addItem_items. destruct (List.find _ _).
    + apply List.Forall_map. eapply List.Forall_impl; [|exact H]. intros x Hx; simpl in Hx.
      destruct (String.eqb (id x) (n_id c)); simpl; lia.
    + apply Forall_app. split; [exact H|]. constructor; [simpl; lia | constructor].
  - apply Forall_filterb. exact H.
  - unfold updateQuantity. destruct (Z.leb_spec q 0) as [Hq|Hq]; simpl.
    + apply Forall_filterb. exact H.
    + apply List.Forall_map. eapply List.Forall_impl; [|exact H]. intros x Hx; simpl in Hx.
      destruct (String.eqb (id x) p); simpl; lia.
  - constructor.
Qed.

Lemma step_ids_sublist (w : World) (o : Op) :
  ids (items (step w o)) `sublist_of`
    ids (items w) ++ match o with
                     | OpAdd it =>
                         match List.find (fun i => String.eqb (id i) (n_id it)) (items w) with
                         | Some _ => []
                         | None => [n_id it]
                         end
                     | _ => []
                     end.
Proof.
  destruct o as [c|p|p q|]; simpl.
  - destruct (List.find _ (items w)) eqn:F.
    + unfold addItem_items. rewrite F, app_nil_r, ids_map; [reflexivity|].
      intros x. destruct (String.eqb (id x) (n_id c)); reflexivity.
    + unfold addItem_items. rewrite F, ids_app. reflexivity.
  - rewrite app_nil_r. apply removeItem_sublist.
  - rewrite app_nil_r. unfold updateQuantity.
    destruct (q <=? 0); simpl; [apply removeItem_sublist|].
    rewrite setQuantity_ids. reflexivity.
  - apply sublist_nil_l.
Qed.

Lemma fold_left_sum (f : CartItem -> Z) (l : list CartItem) (a : Z) :
  fold_left (fun t i => t + f i) l a = a + fold_right (fun i acc => f i + acc) 0 l.
Proof.
  revert a. induction l as [|x l IH]; intros a; simpl; [lia|].
  rewrite IH. lia.
Qed.

Lemma filter_id_absent_sel (p : string) (l : list CartItem) :
  ~ In p (ids l) -> List.filter (fun i => String.eqb (id i) p) l = [].
Proof.
  induction l as [|x l IH]; simpl; intros H; [reflexivity|].
  destruct (String.eqb_spec (id x) p) as [E|E]; [exfalso; auto|].
  apply IH. auto.
Qed.

Lemma setQuantity_split (l : list CartItem) (pid : string) (q : Z) :
  In pid (ids l) -> List.NoDup (ids l) ->
  exists pre x post, l = pre ++ x :: post /\ id x = pid /\
    setQuantity_items l pid q = pre ++ with_quantity x q :: post.
Proof.
  induction l as [|x l IH]; simpl; intros Hin Hd; [contradiction|].
  inversion Hd as [|? ? Hx Hl]; subst.
  unfold setQuantity_items; simpl.
  destruct (String.eqb_spec (id x) pid) as [E|E].
  - exists [], x, l. split; [reflexivity|]. split; [exact E|].
    simpl. f_equal. apply map_id_absent. rewrite <- E. exact Hx.
  - destruct Hin as [Hin|Hin]; [contradiction|].
    destruct (IH Hin Hl) as (pre & y & post & Hl' & Hy & Hs).
    exists (x :: pre), y, post. split; [simpl; now rewrite Hl'|].
    split; [exact Hy|]. simpl. f_equal. exact Hs.
Qed.

Lemma find_app_None {A} (f : A -> bool) (l1 l2 : list A) :
  List.find f l1 = None -> List.find f (l1 ++ l2) = List.find f l2.
Proof.
  induction l1 as [|x l1 IH]; simpl; [reflexivity|].
  destruct (f x); [discriminate | exact IH].
Qed.

Lemma run_cons (o : Op) (ops : list Op) (w : World) :
  run (o :: ops) w = run ops (step w o).
Proof. reflexivity. Qed.
Section StringText.
Local Open Scope string_scope.

Lemma sapp_cons (c : ascii) (a b : string) : String c a ++ b = String c (a ++ b).
Proof. reflexivity. Qed.

Lemma sapp_nil (a : string) : EmptyString ++ a = a.
Proof. reflexivity. Qed.

End StringText.

Lemma find_id_Some (l : list CartItem) (p : string) :
  In p (ids l) -> exists x, List.find (fun i => String.eqb (id i) p) l = Some x.
Proof.
  intros H. destruct (List.find _ l) as [x|] eqn:F; [eauto|].
  apply find_id_None in F. contradiction.
Qed.

Lemma with_quantity_twice (i : CartItem) (a b : Z) :
  with_quantity (with_quantity i a) b = with_quantity i b.
Proof. destruct i; reflexivity. Qed.

Lemma getTotalPrice_items_sum (l : list CartItem) :
  getTotalPrice_items l
  = js_sum (map (fun i => js_mul (price i) (double_of_Z (quantity i))) l).
Proof.
  unfold getTotalPrice_items, js_sum. generalize js_zero.
  induction l as [|x l IH]; intros a; simpl; [reflexivity|]. apply IH.
Qed.

(* ================================================================== *)
(** * JSON round trip of a cart *)

Lemma js_cons (a : ascii) (s : string) :
  js (String a s) = Z.of_nat (nat_of_ascii a) :: js s.
Proof. reflexivity. Qed.

Lemma of_js_js (s : string) : of_js (js s) = Some s.
Proof.
  induction s as [|a s IH]; [reflexivity|].
  rewrite js_cons. simpl. rewrite IH.
  pose proof (nat_ascii_bounded a) as B.
  replace ((0 <=? Z.of_nat (nat_of_ascii a)) && (Z.of_nat (nat_of_ascii a) <? 256)) with true
    by (symmetry; apply andb_true_intro; split; [apply Z.leb_le | apply Z.ltb_lt]; lia).
  rewrite Nat2Z.id, ascii_nat_embedding. reflexivity.
Qed.

Lemma js_units (s : string) : forallb is_unit (js s) = true.
Proof.
  induction s as [|a s IH]; [reflexivity|].
  rewrite js_cons. simpl. rewrite IH, andb_true_r.
  pose proof (nat_ascii_bounded a) as B. unfold is_unit.
  apply andb_true_intro; split; [apply Z.leb_le | apply Z.ltb_lt]; lia.
Qed.

Lemma json_okb_item (i : CartItem) : line_ok i -> json_okb (item_to_json i) = true.
Proof.
  destruct i as [a n p q img]; unfold line_ok; simpl; intros (V & F & S).
  unfold item_to_json; destruct img; simpl;
  rewrite ?js_units, V, (double_of_Z_valid q S); reflexivity.
Qed.

Lemma json_norm_item (i : CartItem) :
  line_ok i -> json_norm (item_to_json i) = item_to_json (price_norm i).
Proof.
  destruct i as [a n p q img]; unfold line_ok; simpl; intros (V & F & S).
  unfold item_to_json, price_norm; destruct img; simpl;
  rewrite F, (double_of_Z_finite q S), (num_norm_double_of_Z q S); reflexivity.
Qed.

Lemma js_keys :
  js "id" = [105; 100] /\ js "name" = [110; 97; 109; 101]
  /\ js "price" = [112; 114; 105; 99; 101] /\ js "image" = [105; 109; 97; 103; 101]
  /\ js "quantity" = [113; 117; 97; 110; 116; 105; 116; 121].
Proof. repeat split. Qed.

Lemma item_of_to_json (i : CartItem) :
  safe_int (quantity i) -> item_of_json (item_to_json i) = Some i.
Proof.
  destruct i as [a n p q img]; simpl; intros S.
  destruct js_keys as (K1 & K2 & K3 & K4 & K5).
  unfold item_of_json, item_to_json. rewrite K1, K2, K3, K4, K5.
  destruct img; cbn -[of_js Z_of_double js double_of_Z];
  rewrite ?of_js_js, (Z_of_double_of_Z q S), ?of_js_js; reflexivity.
Qed.

Lemma cart_of_items_to_json (l : list CartItem) :
  Forall (fun i => safe_int (quantity i)) l ->
  cart_of_json (items_to_json l) = Some l.
Proof.
  induction l as [|x l IH]; intros H; [reflexivity|].
  inversion H as [|? ? Hx Hl]; subst.
  unfold items_to_json in *. cbn [map cart_of_json items_of_list] in *.
  rewrite (item_of_to_json x Hx).
  rewrite (IH Hl). reflexivity.
Qed.

Lemma json_okb_items (l : list CartItem) :
  Forall line_ok l -> json_okb (items_to_json l) = true.
Proof.
  intros H. unfold items_to_json. simpl. apply forallb_forall.
  intros v Hv. apply in_map_iff in Hv as (i & <- & Hi).
  apply json_okb_item. exact (proj1 (List.Forall_forall _ _) H i Hi).
Qed.

Lemma json_norm_items (l : list CartItem) :
  Forall line_ok l -> json_norm (items_to_json l) = items_to_json (map price_norm l).
Proof.
  induction l as [|x l IH]; intros H; [reflexivity|].
  inversion H as [|? ? Hx Hl]; subst.
  specialize (IH Hl). unfold items_to_json in *. cbn [map json_norm] in *.
  injection IH as IH. rewrite (json_norm_item x Hx), IH. reflexivity.
Qed.

Lemma json_parse_items (l : list CartItem) :
  Forall line_ok l ->
  json_parse (stringify (items_to_json l)) = Some (items_to_json (map price_norm l)).
Proof.
  intros H. rewrite (json_parse_stringify _ (json_okb_items l H)).
  rewrite (json_norm_items l H). reflexivity.
Qed.

Lemma price_norm_safe (l : list CartItem) :
  Forall line_ok l -> Forall (fun i => safe_int (quantity i)) (map price_norm l).
Proof.
  induction 1 as [|i l (_ & _ & S) _ IH]; simpl; constructor; assumption.
Qed.

Lemma saveCart_flags (l : list CartItem) (b : Browser) :
  has_window (saveCart l b) = has_window b /\ ls_accessible (saveCart l b) = ls_accessible b
  /\ ls_writable (saveCart l b) = ls_writable b.
Proof.
  destruct b as [[] [] [] d]; repeat split.
Qed.

Lemma getStoredCart_after_save (l : list CartItem) (b : Browser) :
  Forall line_ok l ->
  has_window b = true -> ls_accessible b = true -> ls_writable b = true ->
  getStoredCart (saveCart l b) = items_to_json (map price_norm l).
Proof.
  intros Hl. destruct b as [win acc wr d]; simpl; intros -> -> ->.
  unfold getStoredCart, saveCart, try_catch, localStorage_setItem, localStorage_getItem.
  cbn -[stringify items_to_json json_parse]. rewrite lookup_insert_eq.
  pose proof (stringify_nonempty _ (json_okb_items l Hl)) as N.
  destruct (stringify (items_to_json l)) as [|c r] eqn:E; [contradiction|].
  cbn -[stringify items_to_json json_parse]. unfold JSON_parse.
  rewrite <- E, (json_parse_items l Hl). reflexivity.
Qed.

Lemma saveCart_failed (l : list CartItem) (b : Browser) :
  (has_window b && ls_accessible b && ls_writable b)%bool = false ->
  saveCart l b = b.
Proof. destruct b as [[] [] [] d]; simpl; intros H; try discriminate H; reflexivity. Qed.


Lemma lines_ok_of_bool (l : list CartItem) : forallb line_okb l = true -> Forall line_ok l.
Proof.
  intros H. apply List.Forall_forall. intros i Hi.
  pose proof (proj1 (forallb_forall _ _) H i Hi) as B. unfold line_okb in B.
  apply andb_prop in B as [B B3]. apply andb_prop in B as [B1 B2].
  split; [exact B1 | split; [exact B2 | apply Z.ltb_lt; exact B3]].
Qed.

Lemma step_browser (w : World) (o : Op) :
  browser (step w o) = saveCart (items (step w o)) (browser w).
Proof.
  destruct o as [it|pid|pid q|]; simpl; try reflexivity.
  unfold updateQuantity. destruct (q <=? 0); reflexivity.
Qed.

Lemma NoDup_ids_inj (l : list CartItem) (a b : CartItem) :
  List.NoDup (ids l) -> In a l -> In b l -> id a = id b -> a = b.
Proof.
  induction l as [|x l IH]; simpl; intros Hd Ha Hb E; [contradiction|].
  inversion Hd as [|? ? Hx Hl]; subst.
  destruct Ha as [<-|Ha], Hb as [<-|Hb]; try reflexivity.
  - exfalso. apply Hx. rewrite E. apply in_map. exact Hb.
  - exfalso. apply Hx. rewrite <- E. apply in_map. exact Ha.
  - apply IH; assumption.
Qed.

Lemma totals_app (l1 l2 : list CartItem) :
  getTotalItems_items (l1 ++ l2) = getTotalItems_items l1 + getTotalItems_items l2.
Proof.
  unfold getTotalItems_items. rewrite !fold_left_sum, !fold_right_app.
  induction l1 as [|x l1 IH]; simpl in *; lia.
Qed.

Lemma map_id_split (f : CartItem -> CartItem) (l : list CartItem) (pid : string) :
  In pid (ids l) -> List.NoDup (ids l) ->
  exists pre x post, l = pre ++ x :: post /\ id x = pid /\
    map (fun i => if String.eqb (id i) pid then f i else i) l = pre ++ f x :: post.
Proof.
  induction l as [|x l IH]; simpl; intros Hin Hd; [contradiction|].
  inversion Hd as [|? ? Hx Hl]; subst.
  destruct (String.eqb_spec (id x) pid) as [E|E].
  - exists [], x, l. split; [reflexivity|]. split; [exact E|].
    simpl. f_equal. apply map_id_absent. rewrite <- E. exact Hx.
  - destruct Hin as [Hin|Hin]; [contradiction|].
    destruct (IH Hin Hl) as (pre & y & post & Hl' & Hy & Hs).
    exists (x :: pre), y, post. split; [simpl; now rewrite Hl'|].
    split; [exact Hy|]. simpl. f_equal. exact Hs.
Qed.

Lemma totals_cons (x : CartItem) (l : list CartItem) :
  getTotalItems_items (x :: l) = quantity x + getTotalItems_items l.
Proof.
  change (x :: l) with ([x] ++ l). rewrite totals_app.
  unfold getTotalItems_items. simpl. lia.
Qed.

Lemma split_of_member (l : list CartItem) (item : CartItem) (pre post : list CartItem) (x : CartItem) :
  List.NoDup (ids l) -> In item l -> l = pre ++ x :: post -> id x = id item -> x = item.
Proof.
  intros Hd Hi E Hx. apply (NoDup_ids_inj l); [exact Hd | | exact Hi | exact Hx].
  rewrite E. apply in_or_app. right. left. reflexivity.
Qed.

Lemma ids_split_absent (pre post : list CartItem) (x : CartItem) :
  List.NoDup (ids (pre ++ x :: post)) -> ~ In (id x) (ids pre) /\ ~ In (id x) (ids post).
Proof.
  unfold ids. rewrite map_app. simpl. intros Hd.
  apply NoDup_remove_2 in Hd. split; intros H; apply Hd; apply in_or_app; auto.
Qed.

Lemma remove_split (pre post : list CartItem) (x : CartItem) :
  List.NoDup (ids (pre ++ x :: post)) ->
  removeItem_items (pre ++ x :: post) (id x) = pre ++ post.
Proof.
  intros Hd. destruct (ids_split_absent pre post x Hd) as [H1 H2].
  unfold removeItem_items. rewrite List.filter_app. simpl.
  rewrite String.eqb_refl. simpl.
  rewrite !filter_id_absent by assumption. reflexivity.
Qed.

Lemma setQuantity_twice (l : list CartItem) (pid : string) (q1 q2 : Z) :
  setQuantity_items (setQuantity_items l pid q1) pid q2 = setQuantity_items l pid q2.
Proof.
  induction l as [|x l IH]; [reflexivity|].
  unfold setQuantity_items in *. simpl. rewrite IH.
  destruct (String.eqb_spec (id x) pid) as [E|E]; simpl.
  - rewrite E, String.eqb_refl. reflexivity.
  - apply String.eqb_neq in E. rewrite E. reflexivity.
Qed.

Lemma setQuantity_same (l : list CartItem) (item : CartItem) :
  List.NoDup (ids l) -> In item l ->
  setQuantity_items l (id item) (quantity item) = l.
Proof.
  intros Hd Hi.
  destruct (setQuantity_split l (id item) (quantity item)
              ltac:(apply in_map; exact Hi) Hd) as (pre & x & post & E & Hx & ->).
  pose proof (split_of_member l item pre post x Hd Hi E Hx) as ->.
  rewrite E. destruct item. reflexivity.
Qed.

Lemma quantities_sum_pos (l : list CartItem) :
  quantities_positive l -> (0 < getTotalItems_items l <-> l <> []).
Proof.
  induction l as [|x l IH]; intros H.
  - split; [unfold getTotalItems_items; simpl; lia | contradiction].
  - inversion H as [|? ? Hx Hl]; subst. specialize (IH Hl).
    rewrite totals_cons.
    split; [discriminate|]. intros _.
    assert (0 <= getTotalItems_items l).
    { destruct l as [|y l']; [unfold getTotalItems_items; simpl; lia|].
      enough (0 < getTotalItems_items (y :: l')) by lia. apply IH. discriminate. }
    lia.
Qed.

Lemma strip_non_digits_digits (s : string) :
  forallb is_digit (list_ascii_of_string (strip_non_digits s)) = true.
Proof.
  induction s as [|c s IH]; [reflexivity|]. simpl.
  destruct (is_digit c) eqn:E; simpl; [rewrite E|]; exact IH.
Qed.

Lemma strip_non_digits_id (s : string) :
  forallb is_digit (list_ascii_of_string s) = true -> strip_non_digits s = s.
Proof.
  induction s as [|c s IH]; [reflexivity|]. simpl. intros H.
  apply andb_prop in H as [H1 H2]. rewrite H1, IH by exact H2. reflexivity.
Qed.

Lemma drop_ws_spec (l : list ascii) :
  drop_ws l = [] <-> Forall (fun c => is_js_ws c = true) l.
Proof.
  induction l as [|c l IH]; simpl; [split; constructor|].
  destruct (is_js_ws c) eqn:E.
  - rewrite IH. split; [intros H; constructor; assumption | intros H; inversion H; assumption].
  - split; [discriminate | intros H; inversion H; congruence].
Qed.

Lemma drop_ws_head (l : list ascii) :
  drop_ws l = [] \/ exists c r, drop_ws l = c :: r /\ is_js_ws c = false.
Proof.
  induction l as [|c l IH]; simpl; [left; reflexivity|].
  destruct (is_js_ws c) eqn:E; [exact IH | right; eauto].
Qed.

Lemma string_of_list_ascii_nil (l : list ascii) :
  string_of_list_ascii l = EmptyString <-> l = [].
Proof. destruct l; simpl; split; congruence. Qed.

Lemma trim_blank (s : string) : trim s = EmptyString <-> js_blank s.
Proof.
  unfold trim, js_blank. rewrite string_of_list_ascii_nil.
  set (l := list_ascii_of_string s).
  split.
  - intros H. apply (f_equal (@rev ascii)) in H. rewrite rev_involutive in H.
    simpl in H. apply drop_ws_spec in H. apply Forall_rev in H.
    rewrite rev_involutive in H.
    destruct (drop_ws_head l) as [E|(c & r & E & Hc)].
    + apply drop_ws_spec. exact E.
    + rewrite E in H. inversion H. congruence.
  - intros H. apply drop_ws_spec in H. rewrite H. reflexivity.
Qed.

Lemma setQuantity_member (l : list CartItem) (item : CartItem) (q : Z) :
  List.NoDup (ids l) -> In item l ->
  exists pre post, l = pre ++ item :: post
    /\ setQuantity_items l (id item) q = pre ++ with_quantity item q :: post.
Proof.
  intros Hd Hi.
  destruct (setQuantity_split l (id item) q ltac:(apply in_map; exact Hi) Hd)
    as (pre & x & post & E & Hx & Hs).
  pose proof (split_of_member l item pre post x Hd Hi E Hx) as ->.
  exists pre, post. split; assumption.
Qed.

Lemma setQuantity_member_totals (l : list CartItem) (item : CartItem) (q : Z) :
  List.NoDup (ids l) -> In item l ->
  getTotalItems_items (setQuantity_items l (id item) q)
  = getTotalItems_items l + (q - quantity item)
  /\ ids (setQuantity_items l (id item) q) = ids l.
Proof.
  intros Hd Hi.
  destruct (setQuantity_member l item q Hd Hi) as (pre & post & E & ->).
  rewrite E, !totals_app, !totals_cons. simpl.
  split; [lia|]. unfold ids. rewrite !map_app. reflexivity.
Qed.

(* ================================================================== *)
(** * The claims *)

(** C1 (as stated, refuted): for every cart state, two [addItem] calls
    with the same productId give one line with quantity 2 carrying the
    first call's name and price.  A cart that already holds the product
    ends with quantity 3. *)
Lemma addItem_twice_cex :
  ~ (forall (w : World) (c1 c2 : NewItem), n_id c2 = n_id c1 ->
       exists l, List.filter (fun i => String.eqb (id i) (n_id c1))
                   (items (addItem (addItem w c1) c2)) = [l]
                 /\ quantity l = 2 /\ name l = n_name c1 /\ price l = n_price c1).
Proof.
  intros H.
  destruct (H (addItem empty_world pizza) pizza pizza_renamed eq_refl)
    as (l & Hl & Hq & _).
  vm_compute in Hl. injection Hl as <-. vm_compute in Hq. discriminate.
Qed.

(** C1 (amended): two [addItem] calls with the same productId and no
    other mutation.  From a cart with no line for that productId they
    append exactly one line, with quantity 2 and the name, price and image
    of the first call, and leave the other lines as they were.  From a
    cart that already has a line for it they add 2 to the quantity of
    that line and change nothing else (names, prices and images stay those
    already in the cart). *)
Theorem addItem_twice_same_id (w : World) (c1 c2 : NewItem) :
  n_id c2 = n_id c1 ->
  (~ In (n_id c1) (ids (items w)) ->
   items (addItem (addItem w c1) c2)
     = items w ++ [mkCartItem (n_id c1) (n_name c1) (n_price c1) 2 (n_image c1)]
   /\ List.filter (fun i => String.eqb (id i) (n_id c1))
        (items (addItem (addItem w c1) c2))
      = [mkCartItem (n_id c1) (n_name c1) (n_price c1) 2 (n_image c1)])
  /\ (In (n_id c1) (ids (items w)) ->
      items (addItem (addItem w c1) c2)
      = map (fun i => if String.eqb (id i) (n_id c1)
                      then with_quantity i (quantity i + 2) else i) (items w)).
Proof.
  intros Hid. split.
  - intros Hfresh.
    assert (E : items (addItem (addItem w c1) c2)
                = items w ++ [mkCartItem (n_id c1) (n_name c1) (n_price c1) 2 (n_image c1)]).
    { simpl. rewrite (addItem_absent (items w) c1 Hfresh).
      unfold addItem_items. rewrite Hid.
      assert (F : List.find (fun i => String.eqb (id i) (n_id c1)) (items w ++ [line_of c1])
                  = Some (line_of c1)).
      { rewrite find_app_None by (apply find_id_None; exact Hfresh).
        simpl. now rewrite String.eqb_refl. }
      rewrite F, map_app, map_id_absent by exact Hfresh.
      simpl. now rewrite String.eqb_refl. }
    split; [exact E|]. rewrite E, List.filter_app, filter_id_absent_sel by exact Hfresh.
    simpl. now rewrite String.eqb_refl.
  - intros Hin. simpl.
    destruct (find_id_Some (items w) (n_id c1) Hin) as [x F].
    set (f1 := fun i => if String.eqb (id i) (n_id c1)
                        then with_quantity i (quantity i + 1) else i).
    assert (E1 : addItem_items (items w) c1 = map f1 (items w)).
    { unfold addItem_items. rewrite F. reflexivity. }
    rewrite E1.
    assert (Hin' : In (n_id c1) (ids (map f1 (items w)))).
    { rewrite ids_map; [exact Hin|]. intros y. unfold f1.
      destruct (String.eqb (id y) (n_id c1)); reflexivity. }
    destruct (find_id_Some _ _ Hin') as [y G].
    unfold addItem_items. rewrite Hid, G, map_map. apply map_ext. intros i.
    unfold f1. destruct (String.eqb (id i) (n_id c1)) eqn:Ei; simpl; rewrite Ei; [|reflexivity].
    rewrite with_quantity_twice. f_equal. lia.
Qed.

Lemma addItem_twice_same_id_witness :
  items (addItem (addItem empty_world pizza) pizza_renamed)
    = [mkCartItem "p1" "Pizza" (js_num "29.9") 2 None]
  /\ items (addItem (addItem (addItem empty_world pizza) pizza) pizza_renamed)
    = [mkCartItem "p1" "Pizza" (js_num "29.9") 3 None].
Proof.
  split.
  - exact (proj1 (proj1 (addItem_twice_same_id empty_world pizza pizza_renamed eq_refl)
                    (fun H => match H with end))).
  - rewrite (proj2 (addItem_twice_same_id (addItem empty_world pizza) pizza pizza_renamed eq_refl)
               (or_introl eq_refl)).
    vm_compute. reflexivity.
Defined.

(** C2: after any sequence of calls, [getTotalItems] is the sum of the
    line quantities and [getTotalPrice] the left-to-right JavaScript sum
    of the products price * quantity of the lines, both computed from the
    current lines (the store keeps no total). *)
Theorem totals_recomputed (ops : list Op) (w : World) :
  getTotalItems (run ops w)
    = fold_right (fun i acc => quantity i + acc) 0 (items (run ops w))
  /\ getTotalPrice (run ops w)
    = js_sum (map (fun i => js_mul (price i) (double_of_Z (quantity i))) (items (run ops w))).
Proof.
  split.
  - unfold getTotalItems, getTotalItems_items. rewrite fold_left_sum. lia.
  - unfold getTotalPrice. apply getTotalPrice_items_sum.
Qed.


(** C3: every sequence of [addItem] calls, started from a cart with at
    most one line per productId, leaves at most one line per productId. *)
Theorem addItem_seq_unique (cs : list NewItem) (w : World) :
  List.NoDup (ids (items w)) -> List.NoDup (ids (items (run (map OpAdd cs) w))).
Proof.
  revert w. induction cs as [|c cs IH]; intros w Hd; simpl; [exact Hd|].
  apply IH. simpl. apply addItem_NoDup. exact Hd.
Qed.

Lemma addItem_seq_unique_witness :
  List.NoDup (ids (items empty_world))
  /\ List.NoDup (ids (items (run (map OpAdd [pizza; soda; pizza_renamed; soda]) empty_world))).
Proof.
  assert (H : List.NoDup (ids (items empty_world))) by constructor.
  split; [exact H | exact (addItem_seq_unique _ empty_world H)].
Defined.

(** C4: for [q <= 0], [updateQuantity(id, q)] is [removeItem(id)] (same
    lines, same storage write) and leaves no line with that id. *)
Theorem updateQuantity_nonpos (w : World) (pid : string) (q : Z) :
  q <= 0 ->
  updateQuantity w pid q = removeItem w pid
  /\ ~ In pid (ids (items (updateQuantity w pid q))).
Proof.
  intros Hq. assert (E : updateQuantity w pid q = removeItem w pid).
  { unfold updateQuantity. destruct (Z.leb_spec q 0); [reflexivity | lia]. }
  split; [exact E|]. rewrite E. apply removeItem_not_in.
Qed.

Lemma updateQuantity_nonpos_witness :
  0 <= 0 /\ ~ In "p1"%string
                (ids (items (updateQuantity (addItem empty_world pizza) "p1" 0))).
Proof.
  split; [lia|].
  exact (proj2 (updateQuantity_nonpos (addItem empty_world pizza) "p1" 0 ltac:(lia))).
Defined.

(** C5: from a cart whose lines all have quantity at least 1, every
    sequence of [addItem], [removeItem], [updateQuantity] and
    [clearCart] calls keeps every quantity at least 1. *)
Theorem quantities_stay_positive (ops : list Op) (w : World) :
  quantities_positive (items w) -> quantities_positive (items (run ops w)).
Proof.
  revert w. induction ops as [|o ops IH]; intros w H; [exact H|].
  rewrite run_cons. apply IH. apply step_quantities_positive. exact H.
Qed.

Lemma quantities_stay_positive_witness :
  quantities_positive (items empty_world)
  /\ quantities_positive
       (items (run [OpAdd pizza; OpAdd soda; OpUpdate "p1" 3; OpUpdate "p2" (-1);
                    OpAdd pizza; OpRemove "p9"] empty_world)).
Proof.
  assert (H : quantities_positive (items empty_world)) by constructor.
  split; [exact H | exact (quantities_stay_positive _ empty_world H)].
Defined.

(** C6: for a productId with no line, [removeItem] and
    [updateQuantity] with [q >= 1] leave the lines unchanged; both are
    total (no error path). *)
Theorem absent_id_noop (w : World) (pid : string) (q : Z) :
  ~ In pid (ids (items w)) -> 1 <= q ->
  items (removeItem w pid) = items w
  /\ items (updateQuantity w pid q) = items w.
Proof.
  intros Hp Hq. split.
  - simpl. apply filter_id_absent. exact Hp.
  - unfold updateQuantity. destruct (Z.leb_spec q 0); [lia|].
    simpl. apply map_id_absent. exact Hp.
Qed.

Lemma absent_id_noop_witness :
  (~ In "p9"%string (ids (items (addItem empty_world pizza))) /\ 1 <= 4)
  /\ items (updateQuantity (addItem empty_world pizza) "p9" 4)
     = items (addItem empty_world pizza).
Proof.
  assert (H : ~ In "p9"%string (ids (items (addItem empty_world pizza)))).
  { vm_compute. intros [H|H]; [discriminate H | exact H]. }
  split; [split; [exact H | lia]|].
  exact (proj2 (absent_id_noop _ "p9" 4 H ltac:(lia))).
Defined.

(** C9: [addItem] appends a new line at the end and otherwise keeps the
    lines where they are; over any sequence of calls the surviving lines
    keep the order in which they were created (a subsequence of the
    initial lines followed by the lines created by the calls). *)
Theorem insertion_order_preserved :
  (forall (w : World) (c : NewItem), ~ In (n_id c) (ids (items w)) ->
     items (addItem w c) = items w ++ [line_of c])
  /\ (forall (w : World) (c : NewItem), In (n_id c) (ids (items w)) ->
     ids (items (addItem w c)) = ids (items w))
  /\ (forall (ops : list Op) (w : World),
     ids (items (run ops w)) `sublist_of` ids (items w) ++ created ops w).
Proof.
  split; [intros w c H; apply addItem_absent; exact H|].
  split; [intros w c H; apply addItem_ids_present; exact H|].
  induction ops as [|o ops IH]; intros w.
  - simpl. rewrite app_nil_r. reflexivity.
  - rewrite run_cons. etrans; [apply IH|]. simpl.
    rewrite app_assoc. apply sublist_app; [apply step_ids_sublist | reflexivity].
Qed.

(** C10: on a cart with at most one line per productId that holds a
    line with [pid], [updateQuantity(pid, q)] with [q >= 1] replaces that
    line's quantity by [q], keeps its name, price and image, and leaves
    every other line as it was, in place. *)
Theorem updateQuantity_frame (w : World) (pid : string) (q : Z) :
  1 <= q -> In pid (ids (items w)) -> List.NoDup (ids (items w)) ->
  exists pre l post,
    items w = pre ++ l :: post /\ id l = pid
    /\ items (updateQuantity w pid q)
       = pre ++ mkCartItem (id l) (name l) (price l) q (image l) :: post.
Proof.
  intros Hq Hin Hd. unfold updateQuantity. destruct (Z.leb_spec q 0); [lia|].
  simpl. exact (setQuantity_split (items w) pid q Hin Hd).
Qed.

Lemma updateQuantity_frame_witness :
  (1 <= 3 /\ In "p1"%string (ids (items (run [OpAdd pizza; OpAdd soda] empty_world)))
   /\ List.NoDup (ids (items (run [OpAdd pizza; OpAdd soda] empty_world))))
  /\ exists pre l post,
    items (run [OpAdd pizza; OpAdd soda] empty_world) = pre ++ l :: post /\ id l = "p1"%string
    /\ items (updateQuantity (run [OpAdd pizza; OpAdd soda] empty_world) "p1" 3)
       = pre ++ mkCartItem (id l) (name l) (price l) 3 (image l) :: post.
Proof.
  assert (H1 : In "p1"%string (ids (items (run [OpAdd pizza; OpAdd soda] empty_world)))).
  { vm_compute. left. reflexivity. }
  assert (H2 : List.NoDup (ids (items (run [OpAdd pizza; OpAdd soda] empty_world)))).
  { vm_compute. constructor; [intros [H|[]]; discriminate H|].
    constructor; [intros []|constructor]. }
  split; [split; [lia | split; [exact H1 | exact H2]]|].
  exact (updateQuantity_frame _ "p1" 3 ltac:(lia) H1 H2).
Defined.


(** A price that is not a finite number does not come back:
    [JSON.stringify] writes [NaN] as [null]. *)
Lemma save_load_nan :
  loaded_cart (saveCart [mkCartItem "p1" "Pizza" S754_nan 1 None] web) = None.
Proof. vm_compute. reflexivity. Qed.



(** C8 (as stated, refuted): every stored value loads as the empty cart
    or not at all.  A stored ["null"] is valid JSON: [getStoredCart]
    returns [null], which is no cart (no schema check is done). *)
Lemma stored_null_cex :
  getStoredCart null_browser = JNull /\ loaded_cart null_browser = None.
Proof. split; vm_compute; reflexivity. Qed.

(** C8 (amended): [getStoredCart] never throws (its result is a value,
    not a completion).  It returns the empty cart when there is no
    [window], when [localStorage] throws, when nothing or the empty string
    is stored, and when the stored text is not valid JSON ([json_parse]
    refuses it; it accepts every text the JSON grammar generates, see
    [json_parse_complete]).  When the stored text is valid JSON it returns
    the parsed value as it is, without checking that it is an array of
    cart lines. *)
Theorem getStoredCart_no_throw (b : Browser) :
  ((has_window b = false \/ ls_accessible b = false
    \/ ls_data b !! cart_key = None \/ ls_data b !! cart_key = Some []
    \/ (exists s, ls_data b !! cart_key = Some s /\ json_parse s = None))
   -> getStoredCart b = JArr [])
  /\ (forall s v, has_window b = true -> ls_accessible b = true ->
        ls_data b !! cart_key = Some s -> s <> [] -> json_parse s = Some v ->
        getStoredCart b = v).
Proof.
  destruct b as [win acc wr d]; simpl. unfold getStoredCart, localStorage_getItem. simpl.
  split.
  - destruct win, acc; try (intros; reflexivity); simpl.
    intros [H|[H|[H|[H|(s & Hs & Hp)]]]]; try discriminate H; rewrite ?H; try reflexivity.
    rewrite Hs. destruct s as [|c r]; [reflexivity|].
    unfold JSON_parse. rewrite Hp. reflexivity.
  - intros s v -> -> Hs Hne Hp. simpl. rewrite Hs.
    destruct s as [|c r]; [contradiction|].
    unfold JSON_parse. rewrite Hp. reflexivity.
Qed.

Lemma getStoredCart_no_throw_witness :
  getStoredCart null_browser = JNull /\ getStoredCart web = JArr []
  /\ getStoredCart (mkBrowser true true true (<[cart_key := js "1e2"]> ∅))
     = JNum (js_num "100")
  /\ getStoredCart (mkBrowser true true true (<[cart_key := js "{]"]> ∅)) = JArr [].
Proof.
  split; [|split; [|split]].
  - apply (proj2 (getStoredCart_no_throw null_browser) (js "null") JNull);
      (reflexivity || discriminate).
  - apply (proj1 (getStoredCart_no_throw web)). right; right; left. reflexivity.
  - apply (proj2 (getStoredCart_no_throw _) (js "1e2") (JNum (js_num "100")));
      [reflexivity | reflexivity | reflexivity | discriminate | vm_compute; reflexivity].
  - apply (proj1 (getStoredCart_no_throw _)). right; right; right; right.
    exists (js "{]"). split; [reflexivity | vm_compute; reflexivity].
Defined.

(* ================================================================== *)
(** * Further properties: the storage adapters, the store actions and the
      screens that use the store *)

(** With a window and a working localStorage, [customStorage.getItem] after [customStorage.setItem] of a JSON value under the same name returns that value as [JSON.parse] rebuilds it from its text (non-finite numbers come back as [null], [-0] as [0]). *)
Theorem customStorage_set_get (b : Browser) (name : string) (v : json) :
  json_okb v = true ->
  has_window b = true -> ls_accessible b = true -> ls_writable b = true ->
  customStorage.getItem (customStorage.setItem b name v) name = json_norm v.
Proof.
  intros Hv. destruct b as [win acc wr d]; simpl; intros -> -> ->.
  unfold customStorage.getItem, customStorage.setItem, try_catch,
    localStorage_setItem, localStorage_getItem.
  cbn -[stringify json_parse]. rewrite lookup_insert_eq.
  pose proof (stringify_nonempty v Hv) as N.
  destruct (stringify v) as [|c r] eqn:E; [contradiction|].
  cbn -[stringify json_parse]. unfold JSON_parse.
  rewrite <- E, (json_parse_stringify v Hv). reflexivity.
Qed.

(** With a window and an accessible localStorage, [customStorage.getItem] after [customStorage.removeItem] of the same name returns [null]. *)
Theorem customStorage_remove_get (b : Browser) (name : string) :
  has_window b = true -> ls_accessible b = true ->
  customStorage.getItem (customStorage.removeItem b name) name = JNull.
Proof.
  destruct b as [win acc wr d]; simpl; intros -> ->.
  unfold customStorage.getItem, customStorage.removeItem, try_catch,
    localStorage_removeItem, localStorage_getItem.
  cbn. rewrite lookup_delete_eq. reflexivity.
Qed.

(** Writing or removing one name never changes what [customStorage.getItem] returns for another name. *)
Theorem customStorage_other_name (b : Browser) (name other : string) (v : json) :
  other <> name ->
  customStorage.getItem (customStorage.setItem b other v) name = customStorage.getItem b name
  /\ customStorage.getItem (customStorage.removeItem b other) name
     = customStorage.getItem b name.
Proof.
  intros Hne. destruct b as [[] [] [] d]; split; try reflexivity;
    unfold customStorage.getItem, customStorage.setItem, customStorage.removeItem,
      try_catch, localStorage_setItem, localStorage_removeItem, localStorage_getItem;
    cbn -[stringify String.eqb json_parse];
    rewrite ?lookup_insert_ne, ?lookup_delete_ne by exact Hne; reflexivity.
Qed.

(** [customStorage.getItem] returns [null] when there is no window, localStorage throws, nothing or the empty string is stored, or the text is not JSON; without a window or with a throwing localStorage, [setItem] and [removeItem] change nothing. *)
Theorem customStorage_null_cases (b : Browser) (name : string) (v : json) :
  ((has_window b = false \/ ls_accessible b = false \/ ls_data b !! name = None
    \/ ls_data b !! name = Some []
    \/ (exists s, ls_data b !! name = Some s /\ json_parse s = None))
   -> customStorage.getItem b name = JNull)
  /\ ((has_window b = false \/ ls_accessible b = false) ->
      customStorage.setItem b name v = b /\ customStorage.removeItem b name = b).
Proof.
  destruct b as [win acc wr d]; simpl.
  unfold customStorage.getItem, customStorage.setItem, customStorage.removeItem,
    try_catch, localStorage_setItem, localStorage_removeItem, localStorage_getItem.
  simpl. split.
  - destruct win, acc; try (intros; reflexivity); simpl.
    intros [H|[H|[H|[H|(s & Hs & Hp)]]]]; try discriminate H; rewrite ?H; try reflexivity.
    rewrite Hs. destruct s as [|c r]; [reflexivity|].
    unfold JSON_parse. rewrite Hp. reflexivity.
  - destruct win, acc, wr; intros [H|H]; try discriminate H; split; reflexivity.
Qed.

(** The web/mobile adapter returns the written string after [setItem], on the web when localStorage works and on mobile when AsyncStorage works. *)
Theorem customStorage_platform_set_get (d : Device) (name : string) (value : list Z) :
  (if is_web d
   then has_window (device_browser d) && ls_accessible (device_browser d)
        && ls_writable (device_browser d)
   else async_ok d)%bool = true ->
  (d' <- customStorage_platform.setItem d name value ;;
   customStorage_platform.getItem d' name) = Normal (Some value).
Proof.
  destruct d as [[] b ok ad]; simpl; intros H.
  - destruct b as [[] [] [] bd]; simpl in H; try discriminate H.
    unfold customStorage_platform.setItem, customStorage_platform.getItem,
      global_localStorage_setItem, global_localStorage_getItem, try_catch,
      localStorage_setItem, localStorage_getItem. cbn. rewrite lookup_insert_eq. reflexivity.
  - subst ok. unfold customStorage_platform.setItem, customStorage_platform.getItem,
      AsyncStorage_setItem, AsyncStorage_getItem. cbn. rewrite lookup_insert_eq. reflexivity.
Qed.

(** The web/mobile adapter returns [null] after [removeItem] of the same name: on the web always (a missing window or a throwing localStorage makes both calls fall back), on mobile when AsyncStorage works. *)
Theorem customStorage_platform_remove_get (d : Device) (name : string) :
  (is_web d = false -> async_ok d = true) ->
  (d' <- customStorage_platform.removeItem d name ;;
   customStorage_platform.getItem d' name) = Normal None.
Proof.
  destruct d as [[] b ok ad]; simpl; intros H.
  - destruct b as [[] [] wr bd];
      unfold customStorage_platform.removeItem, customStorage_platform.getItem,
        global_localStorage_removeItem, global_localStorage_getItem, try_catch,
        localStorage_removeItem, localStorage_getItem; cbn; try reflexivity.
    rewrite lookup_delete_eq. reflexivity.
  - rewrite (H eq_refl). unfold customStorage_platform.removeItem, customStorage_platform.getItem,
      AsyncStorage_removeItem, AsyncStorage_getItem. cbn. rewrite lookup_delete_eq. reflexivity.
Qed.

(** On the web a failed write is ignored and leaves the storage unchanged; on mobile a failing AsyncStorage makes [getItem], [setItem] and [removeItem] reject. *)
Theorem customStorage_platform_errors (d : Device) (name : string) (value : list Z) :
  (is_web d = true ->
   (has_window (device_browser d) && ls_accessible (device_browser d)
    && ls_writable (device_browser d))%bool = false ->
   customStorage_platform.setItem d name value = Normal d)
  /\ (is_web d = false -> async_ok d = false ->
      customStorage_platform.setItem d name value = Throw
      /\ customStorage_platform.getItem d name = Throw
      /\ customStorage_platform.removeItem d name = Throw).
Proof.
  destruct d as [web b ok ad]; simpl. split.
  - intros ->. destruct b as [[] [] [] bd]; simpl; intros H; try discriminate H; reflexivity.
  - intros -> ->. repeat split.
Qed.

(** With a working storage, after any non-empty sequence of store mutations that ends with finite prices and safe-integer quantities, [loadFromStorage] reads back the in-memory cart ([-0] prices as [0]). *)
Theorem storage_mirrors_cart (ops : list Op) (w : World) :
  has_window (browser w) = true -> ls_accessible (browser w) = true ->
  ls_writable (browser w) = true -> ops <> [] ->
  Forall line_ok (items (run ops w)) ->
  loadFromStorage (run ops w) = items_to_json (map price_norm (items (run ops w))).
Proof.
  revert w. induction ops as [|o ops IH]; intros w Hw Ha Hr Hne Hl; [contradiction|].
  rewrite run_cons in Hl |- *.
  destruct (saveCart_flags (items (step w o)) (browser w)) as (Fw & Fa & Fr).
  destruct ops as [|o' ops'].
  - unfold loadFromStorage. simpl run in Hl |- *. rewrite step_browser.
    apply getStoredCart_after_save; assumption.
  - apply IH; [rewrite step_browser; congruence .. | discriminate | exact Hl].
Qed.

Lemma storage_mirrors_cart_witness :
  loadFromStorage (run [OpAdd pizza; OpAdd soda; OpUpdate "p1"%string 3] empty_world)
  = items_to_json (map price_norm
      (items (run [OpAdd pizza; OpAdd soda; OpUpdate "p1"%string 3] empty_world))).
Proof.
  apply storage_mirrors_cart; [reflexivity | reflexivity | reflexivity | discriminate |].
  apply lines_ok_of_bool. vm_compute. reflexivity.
Defined.

(** Without a window, or when localStorage or [setItem] throws, no sequence of mutations changes the browser storage. *)
Theorem failed_storage_untouched (ops : list Op) (w : World) :
  (has_window (browser w) && ls_accessible (browser w) && ls_writable (browser w))%bool
  = false ->
  browser (run ops w) = browser w.
Proof.
  revert w. induction ops as [|o ops IH]; intros w H; [reflexivity|].
  rewrite run_cons.
  assert (Hb : browser (step w o) = browser w).
  { rewrite step_browser. apply saveCart_failed. exact H. }
  rewrite IH by (rewrite Hb; exact H). exact Hb.
Qed.

Lemma failed_storage_untouched_witness :
  browser (run [OpAdd pizza; OpClear] (mkWorld [] server)) = server.
Proof. apply failed_storage_untouched. reflexivity. Defined.

(** [clearCart] empties the cart and both totals become 0; with a working storage the text [[]] is written under [seven-cart]. *)
Theorem clearCart_empties (w : World) :
  items (clearCart w) = [] /\ getTotalItems (clearCart w) = 0
  /\ getTotalPrice (clearCart w) = js_zero
  /\ (has_window (browser w) = true -> ls_accessible (browser w) = true ->
      ls_writable (browser w) = true ->
      ls_data (browser (clearCart w)) !! cart_key = Some (js "[]")).
Proof.
  repeat split. destruct w as [l [win acc wr d]]; simpl; intros -> -> ->.
  unfold clearCart, commit, saveCart, try_catch, localStorage_setItem.
  cbn. apply lookup_insert_eq.
Qed.

Lemma clearCart_empties_witness :
  items (clearCart (addItem empty_world pizza)) = []
  /\ ls_data (browser (clearCart (addItem empty_world pizza))) !! cart_key = Some (js "[]").
Proof.
  destruct (clearCart_empties (addItem empty_world pizza)) as (H1 & _ & _ & H4).
  split; [exact H1 | exact (H4 eq_refl eq_refl eq_refl)].
Defined.

(** With a working storage and a cart of finite prices and safe-integer quantities, [saveToStorage] keeps the items, and [loadFromStorage] then reads back the saved cart ([-0] prices as [0]). *)
Theorem saveToStorage_loadFromStorage (w : World) :
  has_window (browser w) = true -> ls_accessible (browser w) = true ->
  ls_writable (browser w) = true -> Forall line_ok (items w) ->
  items (saveToStorage w) = items w
  /\ loadFromStorage (saveToStorage w) = items_to_json (map price_norm (items w))
  /\ cart_of_json (loadFromStorage (saveToStorage w)) = Some (map price_norm (items w)).
Proof.
  intros Hw Ha Hr Hl.
  assert (E : loadFromStorage (saveToStorage w) = items_to_json (map price_norm (items w))).
  { unfold loadFromStorage, saveToStorage. simpl. apply getStoredCart_after_save; assumption. }
  split; [reflexivity|]. split; [exact E|]. rewrite E.
  apply cart_of_items_to_json, price_norm_safe, Hl.
Qed.

Lemma saveToStorage_loadFromStorage_witness :
  cart_of_json (loadFromStorage (saveToStorage (mkWorld [line_of soda] web)))
  = Some [line_of soda].
Proof.
  rewrite (proj2 (proj2 (saveToStorage_loadFromStorage (mkWorld [line_of soda] web)
                            eq_refl eq_refl eq_refl
                            ltac:(apply lines_ok_of_bool; vm_compute; reflexivity)))).
  vm_compute. reflexivity.
Defined.



(** The plus button of a cart line adds 1 to the item count and replaces that line, in place, by the same line with quantity + 1; the other lines are kept. *)
Theorem increment_button_totals (w : World) (item : CartItem) :
  List.NoDup (ids (items w)) -> In item (items w) -> 0 <= quantity item ->
  getTotalItems (increment_button w item) = getTotalItems w + 1
  /\ exists pre post, items w = pre ++ item :: post
     /\ items (increment_button w item)
        = pre ++ with_quantity item (quantity item + 1) :: post.
Proof.
  intros Hd Hi Hq. unfold increment_button, updateQuantity.
  replace (quantity item + 1 <=? 0) with false by (symmetry; apply Z.leb_gt; lia).
  unfold getTotalItems. simpl.
  destruct (setQuantity_member_totals (items w) item (quantity item + 1) Hd Hi) as (H1 & _).
  rewrite H1. split; [lia|].
  exact (setQuantity_member (items w) item (quantity item + 1) Hd Hi).
Qed.

Lemma increment_button_totals_witness :
  getTotalItems (increment_button (run [OpAdd pizza; OpAdd soda] empty_world) (line_of soda))
  = getTotalItems (run [OpAdd pizza; OpAdd soda] empty_world) + 1.
Proof.
  apply (increment_button_totals (run [OpAdd pizza; OpAdd soda] empty_world) (line_of soda)).
  - vm_compute. constructor; [intros [H|[]]; discriminate H|].
    constructor; [intros []|constructor].
  - vm_compute. right. left. reflexivity.
  - vm_compute. discriminate.
Defined.

(** The minus button of a cart line subtracts 1 from the item count; at quantity 1 it removes the line, above it replaces the line, in place, by the same line with quantity - 1 and keeps the other lines. *)
Theorem decrement_button_totals (w : World) (item : CartItem) :
  List.NoDup (ids (items w)) -> In item (items w) -> 1 <= quantity item ->
  getTotalItems (decrement_button w item) = getTotalItems w - 1
  /\ (quantity item = 1 -> ids (items (decrement_button w item))
                           = List.filter (fun p => negb (String.eqb p (id item))) (ids (items w))
                           /\ ~ In (id item) (ids (items (decrement_button w item))))
  /\ (1 < quantity item ->
      exists pre post, items w = pre ++ item :: post
        /\ items (decrement_button w item)
           = pre ++ with_quantity item (quantity item - 1) :: post).
Proof.
  intros Hd Hi Hq. unfold decrement_button.
  destruct (1 <? quantity item) eqn:Eq.
  - apply Z.ltb_lt in Eq. unfold updateQuantity.
    replace (quantity item - 1 <=? 0) with false by (symmetry; apply Z.leb_gt; lia).
    unfold getTotalItems. simpl.
    destruct (setQuantity_member_totals (items w) item (quantity item - 1) Hd Hi) as (H1 & _).
    rewrite H1. split; [lia | split; [intros; lia | intros _]].
    exact (setQuantity_member (items w) item (quantity item - 1) Hd Hi).
  - apply Z.ltb_ge in Eq. assert (Q1 : quantity item = 1) by lia.
    destruct (in_split _ _ Hi) as (pre & post & E).
    unfold getTotalItems, removeItem, commit. simpl.
    rewrite E in Hd |- *. rewrite remove_split by exact Hd.
    rewrite !totals_app, totals_cons, Q1.
    split; [lia | split; [intros _ | intros; lia]].
    destruct (ids_split_absent pre post item Hd) as [N1 N2].
    split.
    + unfold ids. rewrite !map_app. simpl. rewrite List.filter_app. simpl.
      rewrite String.eqb_refl. simpl.
      assert (F : forall l, ~ In (id item) (map id l) ->
                  List.filter (fun p => negb (String.eqb p (id item))) (map id l) = map id l).
      { induction l as [|x l IH]; simpl; intros H; [reflexivity|].
        destruct (String.eqb_spec (id x) (id item)) as [Ex|Ex]; [exfalso; auto|].
        simpl. f_equal. apply IH. auto. }
      rewrite !F by assumption. reflexivity.
    + unfold ids. rewrite map_app. intros Hin. apply in_app_or in Hin as [Hin|Hin]; auto.
Qed.

Lemma decrement_button_totals_witness :
  getTotalItems (decrement_button (run [OpAdd pizza; OpAdd soda] empty_world) (line_of pizza))
  = getTotalItems (run [OpAdd pizza; OpAdd soda] empty_world) - 1.
Proof.
  apply (decrement_button_totals (run [OpAdd pizza; OpAdd soda] empty_world) (line_of pizza)).
  - vm_compute. constructor; [intros [H|[]]; discriminate H|].
    constructor; [intros []|constructor].
  - vm_compute. left. reflexivity.
  - vm_compute. discriminate.
Defined.

(** The minus buttons of the two cart screens always produce the same store state. *)
Theorem decrement_buttons_agree (w : World) (item : CartItem) :
  decrement_button w item = decrement_button_simple w item.
Proof.
  unfold decrement_button, decrement_button_simple, updateQuantity.
  destruct (1 <? quantity item) eqn:E; [reflexivity|].
  apply Z.ltb_ge in E.
  replace (quantity item - 1 <=? 0) with true by (symmetry; apply Z.leb_le; lia).
  reflexivity.
Qed.

(** Pressing plus and then minus on the same line gives back the original cart. *)
Theorem increment_then_decrement (w : World) (item : CartItem) :
  List.NoDup (ids (items w)) -> In item (items w) -> 1 <= quantity item ->
  items (decrement_button (increment_button w item)
                          (with_quantity item (quantity item + 1))) = items w.
Proof.
  intros Hd Hi Hq. unfold decrement_button, increment_button, updateQuantity.
  simpl quantity. simpl id.
  replace (1 <? quantity item + 1) with true by (symmetry; apply Z.ltb_lt; lia).
  replace (quantity item + 1 <=? 0) with false by (symmetry; apply Z.leb_gt; lia).
  replace (quantity item + 1 - 1 <=? 0) with false by (symmetry; apply Z.leb_gt; lia).
  replace (quantity item + 1 - 1) with (quantity item) by lia.
  simpl. rewrite setQuantity_twice. apply setQuantity_same; assumption.
Qed.

Lemma increment_then_decrement_witness :
  items (decrement_button (increment_button (run [OpAdd pizza; OpAdd soda] empty_world)
                                            (line_of soda))
                          (with_quantity (line_of soda) 2))
  = items (run [OpAdd pizza; OpAdd soda] empty_world).
Proof.
  apply (increment_then_decrement (run [OpAdd pizza; OpAdd soda] empty_world) (line_of soda)).
  - vm_compute. constructor; [intros [H|[]]; discriminate H|].
    constructor; [intros []|constructor].
  - vm_compute. right. left. reflexivity.
  - vm_compute. discriminate.
Defined.

(** [addToCart] leaves the store unchanged for an out-of-stock product; otherwise it adds 1 to the item count, and the cart then has a line for the product whose price is the one already stored in the cart for it, or the product's price for a new line, and whose quantity is the old one + 1, or 1 for a new line. *)
Theorem addToCart_stock_gate (w : World) (p : Product) :
  List.NoDup (ids (items w)) ->
  (product_stock_enabled p = true -> product_stock_quantity p <= 0 -> addToCart w p = w)
  /\ ((product_stock_enabled p = false \/ 0 < product_stock_quantity p) ->
      getTotalItems (addToCart w p) = getTotalItems w + 1
      /\ exists l, In l (items (addToCart w p)) /\ id l = product_id p
         /\ price l = match List.find (fun i => String.eqb (id i) (product_id p)) (items w) with
                      | Some l0 => price l0
                      | None => product_price p
                      end
         /\ quantity l = match List.find (fun i => String.eqb (id i) (product_id p)) (items w) with
                         | Some l0 => quantity l0 + 1
                         | None => 1
                         end).
Proof.
  intros Hd. unfold addToCart, checkStock. split.
  - intros -> Hq. simpl. replace (0 <? product_stock_quantity p) with false
      by (symmetry; apply Z.ltb_ge; exact Hq). reflexivity.
  - intros H. replace (negb (if negb (product_stock_enabled p) then true
                             else 0 <? product_stock_quantity p)) with false
      by (destruct H as [H|H]; [rewrite H; reflexivity
          | destruct (product_stock_enabled p); [|reflexivity];
            simpl; apply Z.ltb_lt in H; rewrite H; reflexivity]).
    unfold addItem, getTotalItems, commit. simpl.
    unfold addItem_items. simpl n_id.
    destruct (List.find (fun i => String.eqb (id i) (product_id p)) (items w)) as [y|] eqn:F.
    + assert (Hin : In (product_id p) (ids (items w))).
      { destruct (in_dec string_dec (product_id p) (ids (items w))) as [Hin|Hin]; [exact Hin|].
        apply find_id_None in Hin. congruence. }
      assert (Hy : In y (items w) /\ id y = product_id p).
      { apply find_some in F as [F1 F2]. apply String.eqb_eq in F2. auto. }
      destruct (map_id_split (fun i => with_quantity i (quantity i + 1)) (items w)
                  (product_id p) Hin Hd) as (pre & x & post & E & Hx & ->).
      assert (Exy : x = y).
      { apply (split_of_member (items w) y pre post x Hd (proj1 Hy) E).
        rewrite Hx. symmetry. exact (proj2 Hy). }
      subst y. rewrite E, !totals_app, !totals_cons. simpl. split; [lia|].
      exists (with_quantity x (quantity x + 1)).
      split; [apply in_or_app; right; left; reflexivity|].
      split; [exact Hx | split; reflexivity].
    + rewrite totals_app. unfold getTotalItems_items at 2. simpl. split; [lia|].
      eexists. split; [apply in_or_app; right; left; reflexivity|].
      split; [reflexivity | split; reflexivity].
Qed.

Lemma addToCart_stock_gate_witness :
  addToCart empty_world (mkProduct "p9" "Suco" EmptyString (js_num "7") None [] "c1" true true 0) = empty_world.
Proof.
  exact (proj1 (addToCart_stock_gate empty_world (mkProduct "p9" "Suco" EmptyString (js_num "7") None [] "c1" true true 0)
                  (List.NoDup_nil _)) eq_refl ltac:(simpl; lia)).
Defined.

(** [addToCart] never compares the cart quantity with the stock: [n] calls for an available product that is not yet in the cart give one line with quantity [n]. *)
Theorem addToCart_no_stock_cap (w : World) (p : Product) (n : nat) :
  checkStock p = true -> ~ In (product_id p) (ids (items w)) ->
  items (Nat.iter (S n) (fun w' => addToCart w' p) w)
  = items w ++ [mkCartItem (product_id p) (product_name p) (product_price p)
                           (Z.of_nat (S n)) (product_image p)].
Proof.
  intros Hs Hn. induction n as [|n IH].
  - simpl. unfold addToCart. rewrite Hs. simpl.
    rewrite addItem_absent by exact Hn. reflexivity.
  - change (Nat.iter (S (S n)) (fun w' => addToCart w' p) w)
      with (addToCart (Nat.iter (S n) (fun w' => addToCart w' p) w) p).
    unfold addToCart at 1. rewrite Hs. cbn [negb]. unfold addItem, commit. cbn [items]. rewrite IH.
    unfold addItem_items. simpl n_id.
    assert (F : List.find (fun i => String.eqb (id i) (product_id p)) (items w) = None)
      by (apply find_id_None; exact Hn).
    rewrite find_app_None by exact F. simpl. rewrite String.eqb_refl.
    rewrite map_app, map_id_absent by exact Hn. simpl. rewrite String.eqb_refl.
    unfold with_quantity. simpl. do 3 f_equal. lia.
Qed.

Lemma addToCart_no_stock_cap_witness :
  items (Nat.iter 3 (fun w' => addToCart w' (mkProduct "p7" "Torta" EmptyString (js_num "25") None []
                                                      "c1" true true 1)) empty_world)
  = [mkCartItem "p7" "Torta" (js_num "25") 3 None].
Proof.
  exact (addToCart_no_stock_cap empty_world
           (mkProduct "p7" "Torta" EmptyString (js_num "25") None [] "c1" true true 1) 2
           eq_refl (fun H => H)).
Defined.

(** The phone number built at checkout has only digits, starts with 55, and is unchanged by formatting it again. *)
Theorem checkout_phone_format (whatsapp : string) :
  forallb is_digit (list_ascii_of_string (checkout_phone whatsapp)) = true
  /\ String.prefix "55" (checkout_phone whatsapp) = true
  /\ checkout_phone (checkout_phone whatsapp) = checkout_phone whatsapp.
Proof.
  assert (D : forallb is_digit (list_ascii_of_string (checkout_phone whatsapp)) = true).
  { unfold checkout_phone. destruct (String.prefix "55" (strip_non_digits whatsapp)).
    - apply strip_non_digits_digits.
    - simpl. apply strip_non_digits_digits. }
  assert (P : String.prefix "55" (checkout_phone whatsapp) = true).
  { unfold checkout_phone. destruct (String.prefix "55" (strip_non_digits whatsapp)) eqn:E.
    - exact E.
    - rewrite !sapp_cons. simpl. destruct (ascii_dec "5" "5") as [_|N]; [|congruence]. rewrite sapp_nil. destruct (strip_non_digits whatsapp); reflexivity. }
  split; [exact D|]. split; [exact P|].
  unfold checkout_phone at 1. rewrite (strip_non_digits_id _ D), P. reflexivity.
Qed.

(** The checkout sends the order exactly when the cart is non-empty, name, street, number and neighbourhood are not blank after [trim], and a payment method and the restaurant's WhatsApp are set. *)
Theorem handleCheckout_sends_iff (l : list CartItem) (f : CheckoutForm) :
  handleCheckout_checks l f = SendOrder <->
  l <> [] /\ ~ js_blank (customerName f) /\ ~ js_blank (street f)
  /\ ~ js_blank (number f) /\ ~ js_blank (neighborhood f)
  /\ paymentMethod f <> EmptyString /\ whatsapp f <> EmptyString.
Proof.
  unfold handleCheckout_checks. rewrite <- !trim_blank.
  destruct l as [|x l]; simpl; [split; [discriminate | intros [H _]; contradiction]|].
  destruct (String.eqb_spec (trim (customerName f)) EmptyString) as [E1|E1];
    [split; [discriminate | intros (_ & H & _); contradiction]|].
  destruct (String.eqb_spec (trim (street f)) EmptyString) as [E2|E2];
    [split; [discriminate | intros (_ & _ & H & _); contradiction]|].
  destruct (String.eqb_spec (trim (number f)) EmptyString) as [E3|E3];
    [split; [discriminate | intros (_ & _ & _ & H & _); contradiction]|].
  destruct (String.eqb_spec (trim (neighborhood f)) EmptyString) as [E4|E4];
    [split; [discriminate | intros (_ & _ & _ & _ & H & _); contradiction]|].
  simpl.
  destruct (String.eqb_spec (paymentMethod f) EmptyString) as [E5|E5];
    [split; [discriminate | intros (_ & _ & _ & _ & _ & H & _); contradiction]|].
  destruct (String.eqb_spec (whatsapp f) EmptyString) as [E6|E6];
    [split; [discriminate | intros (_ & _ & _ & _ & _ & _ & H); contradiction]|].
  split; [intros _; repeat split; congruence | reflexivity].
Qed.

(** When all quantities are positive, the menu's cart badge is shown exactly when the cart has a line. *)
Theorem cart_badge_iff (w : World) :
  quantities_positive (items w) -> (cart_badge_shown w = true <-> items w <> []).
Proof.
  intros H. unfold cart_badge_shown, getTotalItems. rewrite Z.ltb_lt.
  apply quantities_sum_pos. exact H.
Qed.

Lemma cart_badge_iff_witness :
  cart_badge_shown (run [OpAdd pizza] empty_world) = true.
Proof.
  apply (cart_badge_iff (run [OpAdd pizza] empty_world)).
  - vm_compute. constructor; [discriminate | constructor].
  - vm_compute. discriminate.
Defined.

Lemma customStorage_set_get_witness :
  customStorage.getItem
    (customStorage.setItem web "seven-menu-cart"
       (JObj [(js "state", JObj [(js "items", JArr [JNum (js_num "29.9")])]);
              (js "version", JNum (js_num "0"))]))
    "seven-menu-cart"
  = JObj [(js "state", JObj [(js "items", JArr [JNum (js_num "29.9")])]);
          (js "version", JNum (js_num "0"))].
Proof.
  etransitivity.
  - apply (customStorage_set_get web "seven-menu-cart"
             (JObj [(js "state", JObj [(js "items", JArr [JNum (js_num "29.9")])]);
                    (js "version", JNum (js_num "0"))])).
    + vm_compute. reflexivity.
    + reflexivity.
    + reflexivity.
    + reflexivity.
  - vm_compute. reflexivity.
Defined.

Lemma customStorage_remove_get_witness :
  customStorage.getItem (customStorage.removeItem null_browser cart_key) cart_key = JNull.
Proof. apply customStorage_remove_get; reflexivity. Defined.

Lemma customStorage_other_name_witness :
  customStorage.getItem (customStorage.setItem null_browser "other" (JBool true)) cart_key
  = customStorage.getItem null_browser cart_key.
Proof. apply customStorage_other_name. discriminate. Defined.

Lemma customStorage_platform_set_get_witness :
  (d' <- customStorage_platform.setItem (mkDevice false web true ∅) "seven-menu-cart" (js "{}") ;;
   customStorage_platform.getItem d' "seven-menu-cart") = Normal (Some (js "{}")).
Proof. apply customStorage_platform_set_get. reflexivity. Defined.

Lemma customStorage_platform_remove_get_witness :
  (d' <- customStorage_platform.removeItem (mkDevice true null_browser false ∅) cart_key ;;
   customStorage_platform.getItem d' cart_key) = Normal None
  /\ (d' <- customStorage_platform.removeItem
              (mkDevice false web true (<[cart_key := js "[]"]> ∅)) cart_key ;;
      customStorage_platform.getItem d' cart_key) = Normal None.
Proof.
  split; apply customStorage_platform_remove_get; [intros H; discriminate H | intros _; reflexivity].
Defined.
